(** * Bdecode: a shallow embedding of the bencode decoder of [Bdecode.py]

    The class [Bdecode] holds a byte buffer [_data] and a cursor [_index].
    [decode] is a recursive-descent reader over that buffer; every method
    reads and advances the one cursor of the instance.  The embedding keeps
    the instance as a record that is threaded through the methods, Python
    exceptions as a second kind of outcome, and the [while] loops and the
    recursion as fixpoints on a step budget whose sufficiency is proved
    ([decode_terminates]).  Limits of the interpreter itself (the depth of
    its call stack, the digit ceiling of [int]) are no part of the class and
    are not modelled; the properties stated over bencoded objects are stated
    for objects that stay inside them ([modest]). *)

From Stdlib Require Import ZArith List Lia Bool.
From Stdlib Require Import Strings.Byte Strings.Ascii Strings.String.
Import ListNotations.

Local Open Scope Z_scope.
Local Set Warnings "-register-all".

(** ** Python objects *)

(** A [bytes] object. *)
Definition bytes : Type := list byte.

(** [b"..."] literals. *)
Definition bytes_of (s : string) : bytes := list_byte_of_string s.

(** [len(x)] as a Python integer. *)
Definition len {A : Type} (l : list A) : Z := Z.of_nat (List.length l).

Fixpoint bytes_eqb (x y : bytes) : bool :=
  match x, y with
  | [], [] => true
  | a :: x', c :: y' => Byte.eqb a c && bytes_eqb x' y'
  | _, _ => false
  end.

(** Slice bounds as Python normalises them: a negative bound counts from the
    end, and both bounds are clamped to [0 .. n]. *)
Definition clamp_bound (n i : Z) : Z :=
  if i <? 0 then Z.max (i + n) 0 else Z.min i n.

(** [data[i:j]]. *)
Definition py_slice (data : bytes) (i j : Z) : bytes :=
  let lo := clamp_bound (len data) i in
  let hi := clamp_bound (len data) j in
  firstn (Z.to_nat (hi - lo)) (skipn (Z.to_nat lo) data).

(** [data[i]]: the byte at [i], [None] where Python raises [IndexError]. *)
Definition py_index (data : bytes) (i : Z) : option byte :=
  let i' := if i <? 0 then i + len data else i in
  if (0 <=? i') && (i' <? len data) then nth_error data (Z.to_nat i') else None.

(** [struct.pack("B", n)] for the element [n] of a [bytes] object. *)
Definition struct_pack_B (n : byte) : bytes := [n].

Fixpoint bytes_startswith (s prefix : bytes) : bool :=
  match prefix, s with
  | [], _ => true
  | p :: prefix', c :: s' => Byte.eqb p c && bytes_startswith s' prefix'
  | _ :: _, [] => false
  end.

(** [sub in s] on [bytes]: the subsequence test. *)
Fixpoint bytes_in (sub s : bytes) : bool :=
  bytes_startswith s sub ||
  match s with
  | [] => false
  | _ :: s' => bytes_in sub s'
  end.

(** [x.decode('utf-8')].  The decoder only ever decodes the one-byte objects
    that [_getNextByte] returns ([_getNextByte_one_byte]); a lone byte is
    valid UTF-8 exactly when it is below 0x80, and so is a sequence of such
    bytes.  Multi-byte sequences are not modelled: any byte from 0x80 up is
    answered with [None], Python's [UnicodeDecodeError]. *)
Fixpoint bytes_decode (x : bytes) : option string :=
  match x with
  | [] => Some EmptyString
  | c :: x' =>
      if (Byte.to_N c <? 128)%N
      then option_map (String (ascii_of_byte c)) (bytes_decode x')
      else None
  end.

(** *** [int(text)] on an ASCII [str]

    Leading and trailing white space is dropped, one sign is allowed, the
    digits may be separated by single underscores, and at least one digit is
    required.  (The digit-count ceiling of recent interpreters is not
    modelled.) *)

Definition is_space (c : ascii) : bool :=
  let n := N_of_ascii c in
  ((9 <=? n) && (n <=? 13) || (n =? 32))%N.

Definition digit_value (c : ascii) : option Z :=
  let n := Z.of_N (N_of_ascii c) in
  if (48 <=? n) && (n <=? 57) then Some (n - 48) else None.

Fixpoint lstrip (s : string) : string :=
  match s with
  | EmptyString => s
  | String c s' => if is_space c then lstrip s' else s
  end.

(** The run of digits and underscores; [prev_us] says that the previous
    character was an underscore. *)
Fixpoint scan_digits (acc : Z) (prev_us : bool) (s : string) : option (Z * string) :=
  match s with
  | EmptyString => if prev_us then None else Some (acc, s)
  | String c s' =>
      match digit_value c with
      | Some d => scan_digits (10 * acc + d) false s'
      | None =>
          if Ascii.eqb c "_"
          then (if prev_us then None else scan_digits acc true s')
          else (if prev_us then None else Some (acc, s))
      end
  end.

Definition unsigned_literal (s : string) : option Z :=
  match s with
  | EmptyString => None
  | String c _ =>
      match digit_value c with
      | None => None
      | Some _ =>
          match scan_digits 0 false s with
          | Some (n, rest) =>
              match lstrip rest with
              | EmptyString => Some n
              | String _ _ => None
              end
          | None => None
          end
      end
  end.

(** [int(text)], [None] where Python raises [ValueError]. *)
Definition py_int (text : string) : option Z :=
  match lstrip text with
  | EmptyString => None
  | String c s' as s =>
      if Ascii.eqb c "-" then option_map Z.opp (unsigned_literal s')
      else if Ascii.eqb c "+" then unsigned_literal s'
      else unsigned_literal s
  end.

(** *** Decoded objects *)

(** The hashable objects [decode] can return: what can be a key of the
    [OrderedDict].  Two keys are equal in Python exactly when they are equal
    here (an [int] never equals a [bytes]). *)
Inductive key : Type :=
| KNone
| KInt (z : Z)
| KBytes (x : bytes).

Inductive value : Type :=
| VNone
| VInt (z : Z)
| VBytes (x : bytes)
| VList (l : list value)
| VDict (d : list (key * value)).

Definition key_eqb (k1 k2 : key) : bool :=
  match k1, k2 with
  | KNone, KNone => true
  | KInt a, KInt c => a =? c
  | KBytes a, KBytes c => bytes_eqb a c
  | _, _ => false
  end.

(** [hash(v)]: the key an object is stored under, [None] for the unhashable
    [list] and [OrderedDict]. *)
Definition hash_key (v : value) : option key :=
  match v with
  | VNone => Some KNone
  | VInt z => Some (KInt z)
  | VBytes x => Some (KBytes x)
  | VList _ => None
  | VDict _ => None
  end.

Definition value_of_key (k : key) : value :=
  match k with
  | KNone => VNone
  | KInt z => VInt z
  | KBytes x => VBytes x
  end.

(** [d[k] = v] on an [OrderedDict]: a key already present keeps its place
    and takes the new value, a new key goes to the end. *)
Fixpoint setitem (k : key) (v : value) (d : list (key * value)) : list (key * value) :=
  match d with
  | [] => [(k, v)]
  | (k', v') :: d' =>
      if key_eqb k k' then (k', v) :: d' else (k', v') :: setitem k v d'
  end.

(** [d[k]], [None] for a missing key. *)
Fixpoint getitem (k : key) (d : list (key * value)) : option value :=
  match d with
  | [] => None
  | (k', v') :: d' => if key_eqb k k' then Some v' else getitem k d'
  end.

Definition keys (d : list (key * value)) : list key := map fst d.

(** Nesting depth of a decoded object. *)
Fixpoint value_depth (v : value) : nat :=
  match v with
  | VList l => S (fold_right (fun x m => Nat.max (value_depth x) m) O l)
  | VDict d => S (fold_right (fun kv m => Nat.max (value_depth (snd kv)) m) O d)
  | _ => O
  end.

(** ** The module constants *)

Definition INT : bytes := bytes_of "i".
Definition LIST : bytes := bytes_of "l".
Definition DICT : bytes := bytes_of "d".
Definition STRING_SEP : bytes := bytes_of ":".
Definition THE_END : bytes := bytes_of "e".

(** ** The instance, exceptions and the method monad *)

Record Bdecode : Type := mkBdecode { _index : Z; _data : bytes }.

Definition set_index (self : Bdecode) (i : Z) : Bdecode :=
  {| _index := i; _data := _data self |}.

(** The exceptions the methods can raise, by the statement that raises. *)
Inductive exn : Type :=
| EOFError                       (* decode: raise EOFError("Unexpected end of file error - malformed torrent.") *)
| ValueError_format              (* decode: raise ValueError("Byte had unexpected format.") *)
| ValueError_int (text : string) (* int(text): invalid literal for int() with base 10 *)
| AttributeError                 (* None.decode('utf-8') *)
| UnicodeDecodeError (x : bytes) (* x.decode('utf-8') *)
| IndexError                     (* self._data[self._index] *)
| TypeError_unhashable.          (* d[key] = value with a list or OrderedDict key *)

(** What a method call comes to: a result, an exception, or an exhausted
    step budget; the first two with the instance as the call left it. *)
Inductive outcome (A : Type) : Type :=
| Returns (a : A) (self : Bdecode)
| Raises (e : exn) (self : Bdecode)
| OutOfFuel.

Arguments Returns {A} a self.
Arguments Raises {A} e self.
Arguments OutOfFuel {A}.

Definition M (A : Type) : Type := Bdecode -> outcome A.

Definition ret {A : Type} (a : A) : M A := fun self => Returns a self.

Definition raise {A : Type} (e : exn) : M A := fun self => Raises e self.

Definition bind {A B : Type} (m : M A) (k : A -> M B) : M B :=
  fun self =>
    match m self with
    | Returns a self' => k a self'
    | Raises e self' => Raises e self'
    | OutOfFuel => OutOfFuel
    end.

Notation "x <- m ;; k" := (bind m (fun x => k))
  (at level 61, m at next level, right associativity).

(** [__init__], from the contents of the file it reads. *)
Definition __init__ (contents : bytes) : Bdecode :=
  {| _index := 0; _data := contents |}.

(** ** The methods *)

Definition _getNextByte : M (option bytes) :=
  fun self =>
    if _index self + 1 <=? len (_data self)
    then Returns (Some (py_slice (_data self) (_index self) (_index self + 1)))
                 (set_index self (_index self + 1))
    else Returns None self.

(** The loop of [_getStrLength]: [l] is the text read so far, [byte] the
    object under test ([None] once the buffer is exhausted). *)
Fixpoint _getStrLength_loop (fuel : nat) (l : string) (byte : option bytes) : M Z :=
  match fuel with
  | O => fun _ => OutOfFuel
  | S fuel' =>
      match byte with
      | None => raise AttributeError
      | Some x =>
          if negb (bytes_eqb x STRING_SEP) then
            match bytes_decode x with
            | None => raise (UnicodeDecodeError x)
            | Some c =>
                byte' <- _getNextByte ;;
                _getStrLength_loop fuel' (l ++ c)%string byte'
            end
          else
            match py_int l with
            | Some n => ret n
            | None => raise (ValueError_int l)
            end
      end
  end.

Definition _getStrLength (fuel : nat) (byte : option bytes) : M Z :=
  _getStrLength_loop fuel EmptyString byte.

Definition _decodeStr (length : Z) : M value :=
  fun self =>
    let s := py_slice (_data self) (_index self) (_index self + length) in
    Returns (VBytes s) (set_index self (_index self + length)).

Fixpoint _decodeInt_loop (fuel : nat) (i : string) (b : option bytes) : M value :=
  match fuel with
  | O => fun _ => OutOfFuel
  | S fuel' =>
      match b with
      | None => raise AttributeError
      | Some x =>
          if negb (bytes_eqb x THE_END) then
            match bytes_decode x with
            | None => raise (UnicodeDecodeError x)
            | Some c =>
                b' <- _getNextByte ;;
                _decodeInt_loop fuel' (i ++ c)%string b'
            end
          else
            match py_int i with
            | Some n => ret (VInt n)
            | None => raise (ValueError_int i)
            end
      end
  end.

Definition _decodeInt (fuel : nat) : M value :=
  b <- _getNextByte ;;
  _decodeInt_loop fuel EmptyString b.

(** [decode] with the loops of [_decodeList] and [_decodeDict]; [l] and [d]
    are the list and the dictionary built so far. *)
Fixpoint decode (fuel : nat) : M value :=
  match fuel with
  | O => fun _ => OutOfFuel
  | S fuel' =>
      byte <- _getNextByte ;;
      match byte with
      | None => raise EOFError
      | Some x =>
          if bytes_eqb x INT then _decodeInt fuel'
          else if bytes_eqb x LIST then _decodeList_loop fuel' []
          else if bytes_eqb x DICT then _decodeDict_loop fuel' []
          else if bytes_eqb x THE_END then ret VNone
          else if bytes_in x (bytes_of "0123456789") then
            length <- _getStrLength fuel' byte ;;
            _decodeStr length
          else raise ValueError_format
      end
  end

with _decodeList_loop (fuel : nat) (l : list value) : M value :=
  match fuel with
  | O => fun _ => OutOfFuel
  | S fuel' =>
      fun self =>
        match py_index (_data self) (_index self) with
        | None => Raises IndexError self
        | Some n =>
            if negb (bytes_eqb (struct_pack_B n) THE_END) then
              (v <- decode fuel' ;;
               _decodeList_loop fuel' (l ++ [v])) self
            else
              (_ <- _getNextByte ;;
               ret (VList l)) self
        end
  end

with _decodeDict_loop (fuel : nat) (d : list (key * value)) : M value :=
  match fuel with
  | O => fun _ => OutOfFuel
  | S fuel' =>
      fun self =>
        if negb (bytes_eqb (py_slice (_data self) (_index self) (_index self + 1)) THE_END) then
          (k <- decode fuel' ;;
           v <- decode fuel' ;;
           match hash_key k with
           | None => raise TypeError_unhashable
           | Some hk => _decodeDict_loop fuel' (setitem hk v d)
           end) self
        else Returns (VDict d) self
  end.

Definition _decodeList (fuel : nat) : M value := _decodeList_loop fuel [].

Definition _decodeDict (fuel : nat) : M value := _decodeDict_loop fuel [].

(** A step budget that every call on [self] stays within
    ([decode_terminates]): two steps for each byte not yet read, and one. *)
Definition budget (self : Bdecode) : nat :=
  S (2 * Z.to_nat (len (_data self) - _index self)).

(** [Bdecode(contents).decode()]. *)
Definition run (contents : bytes) : outcome value :=
  decode (budget (__init__ contents)) (__init__ contents).

(** ** The vocabulary of the properties *)

(** The text begins with a decimal digit. *)
Definition digit_led (s : string) : bool :=
  match s with
  | EmptyString => false
  | String c _ => match digit_value c with Some _ => true | None => false end
  end.

(** [self'] is [self] after some reads: the same buffer, the cursor not
    before where it was. *)
Definition advances (self self' : Bdecode) : Prop :=
  _data self' = _data self /\ _index self <= _index self'.

(** A call made on [self] left the instance further on, if it ended. *)
Definition monotone {A : Type} (self : Bdecode) (o : outcome A) : Prop :=
  match o with
  | Returns _ self' => advances self self'
  | Raises _ self' => advances self self'
  | OutOfFuel => True
  end.

(** What a call of [decode] that returns has done: it has read at least
    the byte under the cursor. *)
Definition consumes {A : Type} (self : Bdecode) (o : outcome A) : Prop :=
  match o with
  | Returns _ self' =>
      _data self' = _data self
      /\ _index self + 1 <= _index self'
      /\ _index self + 1 <= len (_data self)
  | Raises _ self' => advances self self'
  | OutOfFuel => True
  end.

(** The length [_getStrLength] returns, with the cursor it leaves. *)
Definition length_read (self : Bdecode) (o : outcome Z) : Prop :=
  match o with
  | Returns n self' => advances self self' /\ 0 <= n
  | Raises _ self' => advances self self'
  | OutOfFuel => True
  end.

(** The call ended within its step budget. *)
Definition finishes {A : Type} (o : outcome A) : Prop :=
  match o with
  | OutOfFuel => False
  | _ => True
  end.

(** The bytes not yet read. *)
Definition remaining (self : Bdecode) : nat :=
  Z.to_nat (len (_data self) - _index self).

(** What a scanning loop needs: nothing but the failing test once the
    buffer is exhausted, else a step for each byte left and two. *)
Definition scan_steps (b : option bytes) (self : Bdecode) : nat :=
  match b with
  | None => 1
  | Some _ => remaining self + 2
  end.

(** *** Nested lists *)



(** Every dictionary in [v], at any depth, has distinct keys, and no key
    is [None]: each key is an integer or a byte string. *)
Fixpoint well_keyed (v : value) : Prop :=
  match v with
  | VList l => fold_right (fun x P => well_keyed x /\ P) True l
  | VDict d =>
      NoDup (keys d) /\ ~ In KNone (keys d)
      /\ fold_right (fun kv P => well_keyed (snd kv) /\ P) True d
  | _ => True
  end.

(** The values of a dictionary under construction are well keyed. *)
Definition entries_well_keyed (d : list (key * value)) : Prop :=
  fold_right (fun kv P => well_keyed (snd kv) /\ P) True d.

(** The elements of a list under construction are well keyed. *)
Definition items_well_keyed (l : list value) : Prop :=
  fold_right (fun x P => well_keyed x /\ P) True l.

(** *** Bencoded input

    The repository has no encoder; [bencode] writes the inputs that the
    round-trip properties are stated over. *)

(** The ASCII digit of [d], for [0 <= d <= 9]. *)
Definition digit_byte (d : Z) : byte :=
  match d with
  | 0 => "0" | 1 => "1" | 2 => "2" | 3 => "3" | 4 => "4"
  | 5 => "5" | 6 => "6" | 7 => "7" | 8 => "8" | _ => "9"
  end%byte.

(** One of the bytes [0] to [9]. *)
Definition is_digit_byte (c : byte) : bool :=
  (48 <=? Byte.to_N c)%N && (Byte.to_N c <=? 57)%N.

(** The decimal digits of [n] in front of [tail], least significant digit
    first out. *)
Fixpoint decimal_digits (fuel : nat) (n : Z) (tail : bytes) : bytes :=
  match fuel with
  | O => tail
  | S fuel' =>
      let tail' := digit_byte (n mod 10) :: tail in
      if n <? 10 then tail' else decimal_digits fuel' (n / 10) tail'
  end.

(** [str(n).encode()] for [0 <= n]. *)
Definition decimal (n : Z) : bytes :=
  decimal_digits (S (Z.to_nat (Z.log2 n))) n [].

(** [str(z).encode()]. *)
Definition decimal_Z (z : Z) : bytes :=
  if z <? 0 then "-"%byte :: decimal (- z) else decimal z.

(** The [str] of ASCII bytes. *)
Fixpoint text_of (t : bytes) : string :=
  match t with
  | [] => EmptyString
  | c :: t' => String (ascii_of_byte c) (text_of t')
  end.

Definition bencode_key (k : key) : bytes :=
  match k with
  | KNone => []
  | KInt z => "i"%byte :: decimal_Z z ++ ["e"%byte]
  | KBytes x => decimal (len x) ++ ":"%byte :: x
  end.

(** The bencoding of an object.  [None] is no bencoded value and is
    written as nothing. *)
Fixpoint bencode (v : value) : bytes :=
  match v with
  | VNone => []
  | VInt z => "i"%byte :: decimal_Z z ++ ["e"%byte]
  | VBytes x => decimal (len x) ++ ":"%byte :: x
  | VList l => "l"%byte :: flat_map bencode l ++ ["e"%byte]
  | VDict d =>
      "d"%byte
      :: flat_map (fun kv => bencode_key (fst kv) ++ bencode (snd kv)) d
      ++ ["e"%byte]
  end.

(** Integers, byte strings, and lists of these at any depth: the objects
    with no dictionary and no [None] inside. *)
Fixpoint plain (v : value) : bool :=
  match v with
  | VInt _ => true
  | VBytes _ => true
  | VList l => forallb plain l
  | _ => false
  end.

(** The entries of a dictionary whose keys are integers or byte strings
    and whose values are plain. *)
Definition plain_entry (kv : key * value) : bool :=
  negb (key_eqb (fst kv) KNone) && plain (snd kv).

Definition bencode_entries (d : list (key * value)) : bytes :=
  flat_map (fun kv => bencode_key (fst kv) ++ bencode (snd kv)) d.

(** A byte a scanning loop takes into its text: ASCII, and not the byte
    the loop stops at. *)
Definition scannable (stop c : byte) : bool :=
  (Byte.to_N c <? 128)%N && negb (Byte.eqb c stop).

(** What [int(text)] comes to in [_decodeInt]. *)
Definition int_outcome (text : string) : M value :=
  match py_int text with
  | Some n => ret (VInt n)
  | None => raise (ValueError_int text)
  end.


(** What the byte-string form comes to once the [:] is read. *)
Definition str_outcome (text : string) (tail : bytes) : M value :=
  fun self =>
    match py_int text with
    | Some n =>
        Returns (VBytes (firstn (Z.to_nat n) tail)) (set_index self (_index self + n))
    | None => Raises (ValueError_int text) self
    end.

(** [d[k] = v] for the entries in turn. *)
Definition setitems (entries acc : list (key * value)) : list (key * value) :=
  fold_left (fun d kv => setitem (fst kv) (snd kv) d) entries acc.

(** What the round trip says of one object, at any place in a buffer. *)
Definition decodes_back (v : value) : Prop :=
  forall pre rest data fuel,
    data = pre ++ bencode v ++ rest ->
    (2 * List.length data + 1 <= fuel)%nat ->
    decode fuel (mkBdecode (len pre) data)
    = Returns v (mkBdecode (len pre + len (bencode v)) data).

(** *** The limits of the interpreter

    [int] refuses a numeral of more digits than a ceiling (4300 by
    default), and a call nested deeper than the recursion limit (1000 frames
    by default, two frames for each level of nesting) is refused too.  The
    embedding has neither limit; [modest] names the objects whose decoding
    stays well inside both. *)

Definition max_str_digits : nat := 4300.

Definition max_nesting : nat := 64.

(** The numeral of [z] has no more digits than [int] takes. *)
Definition short_numeral (z : Z) : bool :=
  (List.length (decimal (Z.abs z)) <=? max_str_digits)%nat.

Definition short_key (k : key) : bool :=
  match k with
  | KNone => true
  | KInt z => short_numeral z
  | KBytes x => short_numeral (len x)
  end.

(** Every integer and every length in the bencoding of [v] is a short
    numeral. *)
Fixpoint short_numerals (v : value) : bool :=
  match v with
  | VNone => true
  | VInt z => short_numeral z
  | VBytes x => short_numeral (len x)
  | VList l => forallb short_numerals l
  | VDict d => forallb (fun kv => short_key (fst kv) && short_numerals (snd kv)) d
  end.

(** A plain object inside the limits: short numerals, and nested no deeper
    than [max_nesting]. *)
Definition modest (v : value) : bool :=
  plain v && short_numerals v && (value_depth v <=? max_nesting)%nat.

(** An entry with an integer or byte-string key and a modest value, inside
    the limits. *)
Definition modest_entry (kv : key * value) : bool :=
  negb (key_eqb (fst kv) KNone) && short_key (fst kv) && modest (snd kv).

(** *** Keys that come more than once *)

(** The value of the last entry that has the key [k]. *)
Fixpoint last_value (k : key) (entries : list (key * value)) : option value :=
  match entries with
  | [] => None
  | (k', v) :: es =>
      match last_value k es with
      | Some w => Some w
      | None => if key_eqb k k' then Some v else None
      end
  end.

(** The keys of [ks] in the order in which each comes first, those in
    [seen] left out. *)
Fixpoint first_keys (seen ks : list key) : list key :=
  match ks with
  | [] => []
  | k :: ks' =>
      if existsb (key_eqb k) seen then first_keys seen ks'
      else k :: first_keys (seen ++ [k]) ks'
  end.

(** * Properties *)

(** The object-level helpers stay folded under [simpl]; closed instances
    are evaluated with [vm_compute]. *)
Arguments bytes_in : simpl never.
Arguments bytes_eqb : simpl never.
Arguments bytes_decode : simpl never.
Arguments bytes_of : simpl never.
Arguments py_slice : simpl never.
Arguments py_index : simpl never.
Arguments py_int : simpl never.
Arguments hash_key : simpl never.

(** ** Reading one byte *)

Lemma py_slice_one (data : bytes) (i : Z) :
  0 <= i -> i + 1 <= len data ->
  exists c, py_slice data i (i + 1) = [c]
            /\ nth_error data (Z.to_nat i) = Some c
            /\ py_index data i = Some c.
Proof.
  intros Hi Hlen. unfold len in Hlen.
  assert (Hk : (Z.to_nat i < List.length data)%nat) by lia.
  destruct (nth_error data (Z.to_nat i)) as [c|] eqn:Hnth.
  2:{ apply nth_error_None in Hnth. lia. }
  exists c. split; [|split]; trivial.
  - unfold py_slice, clamp_bound, len.
    replace (i <? 0) with false by (symmetry; apply Z.ltb_ge; lia).
    replace (i + 1 <? 0) with false by (symmetry; apply Z.ltb_ge; lia).
    rewrite !Z.min_l by lia.
    replace (Z.to_nat (i + 1 - i)) with 1%nat by lia.
    destruct (nth_error_split _ _ Hnth) as (l1 & l2 & -> & Hl1).
    rewrite skipn_app, skipn_all2 by lia.
    rewrite Hl1, Nat.sub_diag. reflexivity.
  - unfold py_index, len.
    replace (i <? 0) with false by (symmetry; apply Z.ltb_ge; lia).
    replace (0 <=? i) with true by (symmetry; apply Z.leb_le; lia).
    replace (i <? Z.of_nat (List.length data)) with true by (symmetry; apply Z.ltb_lt; lia).
    exact Hnth.
Qed.

Lemma _getNextByte_cases (self : Bdecode) :
  (_index self + 1 <= len (_data self)
   /\ _getNextByte self
      = Returns (Some (py_slice (_data self) (_index self) (_index self + 1)))
                (set_index self (_index self + 1)))
  \/ (len (_data self) < _index self + 1
      /\ _getNextByte self = Returns None self).
Proof.
  unfold _getNextByte.
  destruct (_index self + 1 <=? len (_data self)) eqn:E.
  - left. apply Z.leb_le in E. auto.
  - right. apply Z.leb_gt in E. auto.
Qed.

(** The object [_getNextByte] hands out holds exactly one byte, the one
    under the cursor. *)
Lemma _getNextByte_one_byte (self self' : Bdecode) (x : bytes) :
  0 <= _index self ->
  _getNextByte self = Returns (Some x) self' ->
  exists c, x = [c]
            /\ nth_error (_data self) (Z.to_nat (_index self)) = Some c
            /\ self' = set_index self (_index self + 1)
            /\ _index self + 1 <= len (_data self).
Proof.
  intros H0 H.
  destruct (_getNextByte_cases self) as [[Hle E]|[Hlt E]]; rewrite E in H; inversion H; subst.
  destruct (py_slice_one (_data self) (_index self) H0 Hle) as (c & Hs & Hn & _).
  exists c. auto.
Qed.

(** ** [int] of a text that begins with a digit is not negative *)

Lemma digit_value_range (c : ascii) (d : Z) : digit_value c = Some d -> 0 <= d <= 9.
Proof.
  unfold digit_value.
  destruct ((48 <=? Z.of_N (N_of_ascii c)) && (Z.of_N (N_of_ascii c) <=? 57)) eqn:E; [|discriminate].
  apply andb_true_iff in E. destruct E as [E1 E2].
  apply Z.leb_le in E1. apply Z.leb_le in E2.
  intros H. inversion H. lia.
Qed.

Lemma digit_not_space (c : ascii) (d : Z) : digit_value c = Some d -> is_space c = false.
Proof.
  unfold digit_value, is_space.
  destruct ((48 <=? Z.of_N (N_of_ascii c)) && (Z.of_N (N_of_ascii c) <=? 57)) eqn:E; [|discriminate].
  apply andb_true_iff in E. destruct E as [E1 E2].
  apply Z.leb_le in E1. apply Z.leb_le in E2. intros _.
  apply orb_false_iff. split.
  - apply andb_false_iff. right. apply N.leb_gt. lia.
  - apply N.eqb_neq. lia.
Qed.

Lemma digit_not_sign (c : ascii) (d : Z) :
  digit_value c = Some d -> Ascii.eqb c "-" = false /\ Ascii.eqb c "+" = false.
Proof.
  intros H. split; apply Ascii.eqb_neq; intros ->; vm_compute in H; discriminate.
Qed.

Lemma scan_digits_nonneg (s : string) :
  forall acc us n rest, 0 <= acc -> scan_digits acc us s = Some (n, rest) -> 0 <= n.
Proof.
  induction s as [|c s IH]; intros acc us n rest Hacc H; cbn [scan_digits] in H.
  - destruct us; inversion H; subst; trivial.
  - destruct (digit_value c) as [d|] eqn:Hd.
    + apply digit_value_range in Hd. eapply IH; [|exact H]. lia.
    + destruct (Ascii.eqb c "_"), us; try discriminate.
      * eapply IH; eauto.
      * inversion H; subst; trivial.
Qed.

Lemma py_int_digit_led (l : string) (n : Z) :
  digit_led l = true -> py_int l = Some n -> 0 <= n.
Proof.
  destruct l as [|c l]; [discriminate|]. simpl.
  destruct (digit_value c) as [d|] eqn:Hd; [intros _|discriminate].
  unfold py_int. simpl lstrip. rewrite (digit_not_space _ _ Hd).
  destruct (digit_not_sign _ _ Hd) as [-> ->].
  unfold unsigned_literal. rewrite Hd.
  destruct (scan_digits 0 false (String c l)) as [[m rest]|] eqn:Hs; [|discriminate].
  destruct (lstrip rest); [|discriminate].
  intros H. inversion H; subst.
  eapply scan_digits_nonneg; [|exact Hs]. lia.
Qed.

Lemma digit_led_append (l c : string) : digit_led l = true -> digit_led (l ++ c) = true.
Proof. destruct l; [discriminate|]. trivial. Qed.

(** A one-byte object that is [in b'0123456789'] decodes to one digit. *)
Lemma digit_byte_decode (c : byte) :
  bytes_in [c] (bytes_of "0123456789") = true ->
  bytes_eqb [c] STRING_SEP = false
  /\ exists t, bytes_decode [c] = Some t /\ digit_led t = true.
Proof.
  destruct c; intros H; try discriminate H; (split; [reflexivity|eexists; split; reflexivity]).
Qed.

(** ** The cursor only moves forward *)

Lemma advances_refl (self : Bdecode) : advances self self.
Proof. split; [reflexivity|lia]. Qed.

Lemma advances_trans (s1 s2 s3 : Bdecode) :
  advances s1 s2 -> advances s2 s3 -> advances s1 s3.
Proof. unfold advances. intros [D1 I1] [D2 I2]. split; [congruence|lia]. Qed.

Lemma advances_set_index (self : Bdecode) (i : Z) :
  _index self <= i -> advances self (set_index self i).
Proof. intros H. split; [reflexivity|exact H]. Qed.

Lemma monotone_weaken {A : Type} (s1 s2 : Bdecode) (o : outcome A) :
  advances s1 s2 -> monotone s2 o -> monotone s1 o.
Proof. destruct o; simpl; eauto using advances_trans. Qed.

Lemma consumes_monotone {A : Type} (self : Bdecode) (o : outcome A) :
  consumes self o -> monotone self o.
Proof. destruct o; simpl; trivial. intros (D & I & _). split; [exact D|lia]. Qed.

Lemma monotone_bind {A B : Type} (m : M A) (k : A -> M B) (self : Bdecode) :
  monotone self (m self) ->
  (forall a self', m self = Returns a self' -> monotone self' (k a self')) ->
  monotone self (bind m k self).
Proof.
  unfold bind. intros Hm Hk.
  destruct (m self) as [a s'|e s'|] eqn:E; simpl in *; trivial.
  eapply monotone_weaken; eauto.
Qed.

Lemma _getNextByte_monotone (self : Bdecode) : monotone self (_getNextByte self).
Proof.
  destruct (_getNextByte_cases self) as [[_ ->]|[_ ->]]; simpl.
  - apply advances_set_index. lia.
  - apply advances_refl.
Qed.

Lemma _getNextByte_index (self self' : Bdecode) (o : option bytes) :
  _getNextByte self = Returns o self' ->
  advances self self' /\ _index self' <= Z.max (_index self) (len (_data self)).
Proof.
  intros H. split.
  - pose proof (_getNextByte_monotone self) as M. rewrite H in M. exact M.
  - destruct (_getNextByte_cases self) as [[L E]|[L E]]; rewrite E in H;
      inversion H; subst; simpl; lia.
Qed.

Lemma _decodeInt_loop_monotone (fuel : nat) :
  forall i b self, monotone self (_decodeInt_loop fuel i b self).
Proof.
  induction fuel as [|fuel IH]; intros i b self; simpl; trivial.
  destruct b as [x|]; [|apply advances_refl].
  destruct (negb (bytes_eqb x THE_END)).
  - destruct (bytes_decode x); [|apply advances_refl].
    apply monotone_bind; [apply _getNextByte_monotone|]. intros; apply IH.
  - destruct (py_int i); apply advances_refl.
Qed.

Lemma _decodeInt_monotone (fuel : nat) (self : Bdecode) :
  monotone self (_decodeInt fuel self).
Proof.
  apply monotone_bind; [apply _getNextByte_monotone|].
  intros; apply _decodeInt_loop_monotone.
Qed.

Lemma _getStrLength_loop_length (fuel : nat) :
  forall l byte self,
    0 <= _index self ->
    digit_led l = true
    \/ (l = EmptyString
        /\ exists c, byte = Some [c] /\ bytes_in [c] (bytes_of "0123456789") = true) ->
    length_read self (_getStrLength_loop fuel l byte self).
Proof.
  induction fuel as [|fuel IH]; intros l byte self H0 Hl; simpl; trivial.
  destruct byte as [x|]; [|apply advances_refl].
  destruct (negb (bytes_eqb x STRING_SEP)) eqn:Hsep.
  - destruct (bytes_decode x) as [t|] eqn:Ht; [|apply advances_refl].
    assert (Hled : digit_led (l ++ t) = true).
    { destruct Hl as [Hl|(-> & c & Hx & Hin)].
      - apply digit_led_append, Hl.
      - inversion Hx; subst x.
        destruct (digit_byte_decode c Hin) as (_ & t' & Ht' & Hd).
        rewrite Ht in Ht'. inversion Ht'; subst. exact Hd. }
    unfold bind.
    destruct (_getNextByte self) as [o s'|e s'|] eqn:E; simpl; trivial.
    + apply _getNextByte_index in E. destruct E as [[D I] _].
      specialize (IH (l ++ t)%string o s').
      assert (H0' : 0 <= _index s') by lia.
      specialize (IH H0' (or_introl Hled)).
      destruct (_getStrLength_loop fuel (l ++ t) o s'); simpl in *; trivial.
      * destruct IH as [[D' I'] Hn]. repeat split; [congruence|lia|exact Hn].
      * destruct IH as [D' I']. split; [congruence|lia].
    + pose proof (_getNextByte_monotone self) as M. rewrite E in M. exact M.
  - destruct (py_int l) as [n|] eqn:Hn; simpl; [|apply advances_refl].
    split; [apply advances_refl|].
    destruct Hl as [Hl|(-> & c & Hx & Hin)].
    + eapply py_int_digit_led; eauto.
    + discriminate Hn.
Qed.

Lemma _decodeStr_advances (length : Z) (self : Bdecode) :
  0 <= length -> monotone self (_decodeStr length self).
Proof. intros H. simpl. apply advances_set_index. lia. Qed.

Ltac split3 := split; [|split].

Lemma decode_consumes_all (fuel : nat) :
  (forall self, 0 <= _index self -> consumes self (decode fuel self))
  /\ (forall l self, 0 <= _index self -> monotone self (_decodeList_loop fuel l self))
  /\ (forall d self, 0 <= _index self -> monotone self (_decodeDict_loop fuel d self)).
Proof.
  induction fuel as [|fuel (IHd & IHl & IHk)]; [repeat split|].
  split3.
  - (* decode *)
    intros self H0. cbn [decode]. unfold bind at 1.
    destruct (_getNextByte self) as [o s1|e s1|] eqn:E; simpl; trivial.
    2:{ pose proof (_getNextByte_monotone self) as M. rewrite E in M. exact M. }
    destruct o as [x|].
    2:{ apply _getNextByte_index in E. simpl. tauto. }
    destruct (_getNextByte_one_byte _ _ _ H0 E) as (c & -> & Hc & -> & Hlen).
    assert (H1 : 0 <= _index (set_index self (_index self + 1))) by (simpl; lia).
    assert (Hstep : forall o : outcome value,
               monotone (set_index self (_index self + 1)) o -> consumes self o).
    { intros [v s|e s|]; simpl; trivial.
      - intros [D I]; simpl in D, I. split3; [exact D|lia|exact Hlen].
      - intros [D I]; simpl in D, I. split; [exact D|lia]. }
    destruct (bytes_eqb [c] INT); [apply Hstep, _decodeInt_monotone|].
    destruct (bytes_eqb [c] LIST); [apply Hstep, IHl, H1|].
    destruct (bytes_eqb [c] DICT); [apply Hstep, IHk, H1|].
    destruct (bytes_eqb [c] THE_END); [apply Hstep, advances_refl|].
    destruct (bytes_in [c] (bytes_of "0123456789")) eqn:Hin; [|apply Hstep, advances_refl].
    apply Hstep. unfold bind, _getStrLength.
    match goal with
    | |- context [_getStrLength_loop ?f ?l ?b ?s] =>
        pose proof (_getStrLength_loop_length f l b s H1
                      (or_intror (conj eq_refl (ex_intro _ c (conj eq_refl Hin))))) as HL;
        destruct (_getStrLength_loop f l b s) as [n s2|e s2|]
    end; simpl in HL |- *; trivial.
    destruct HL as [[D I] Hn]; simpl in D, I. split; simpl; [exact D|lia].
  - (* _decodeList *)
    intros l self H0. cbn [_decodeList_loop].
    destruct (py_index (_data self) (_index self)) as [n|]; [|apply advances_refl].
    destruct (negb (bytes_eqb (struct_pack_B n) THE_END)).
    + apply monotone_bind; [apply consumes_monotone, IHd, H0|].
      intros v s' E. apply IHl.
      pose proof (IHd self H0) as C. rewrite E in C. simpl in C. lia.
    + apply monotone_bind; [apply _getNextByte_monotone|].
      intros; apply advances_refl.
  - (* _decodeDict *)
    intros d self H0. cbn [_decodeDict_loop].
    destruct (negb (bytes_eqb (py_slice (_data self) (_index self) (_index self + 1)) THE_END));
      [|apply advances_refl].
    apply monotone_bind; [apply consumes_monotone, IHd, H0|].
    intros k s1 E1.
    pose proof (IHd self H0) as C1. rewrite E1 in C1. simpl in C1.
    assert (H1 : 0 <= _index s1) by lia.
    apply monotone_bind; [apply consumes_monotone, IHd, H1|].
    intros v s2 E2.
    pose proof (IHd s1 H1) as C2. rewrite E2 in C2. simpl in C2.
    destruct (hash_key k); [|apply advances_refl].
    apply IHk. lia.
Qed.

(** ** The step budget is enough *)

Lemma finishes_bind {A B : Type} (m : M A) (k : A -> M B) (self : Bdecode) :
  finishes (m self) ->
  (forall a self', m self = Returns a self' -> finishes (k a self')) ->
  finishes (bind m k self).
Proof.
  unfold bind. intros Hm Hk.
  destruct (m self) as [a s'|e s'|]; simpl in *; auto.
Qed.

Lemma _getNextByte_remaining (self self' : Bdecode) (o : option bytes) :
  _getNextByte self = Returns o self' ->
  match o with
  | Some _ => (S (remaining self') = remaining self)%nat
  | None => self' = self
  end.
Proof.
  intros H.
  destruct (_getNextByte_cases self) as [[L E]|[L E]]; rewrite E in H;
    inversion H; subst; trivial.
  unfold remaining; simpl. lia.
Qed.

Lemma _getNextByte_finishes (self : Bdecode) : finishes (_getNextByte self).
Proof. destruct (_getNextByte_cases self) as [[_ ->]|[_ ->]]; exact I. Qed.

Lemma scan_steps_next (self self' : Bdecode) (b : option bytes) (fuel : nat) :
  _getNextByte self = Returns b self' ->
  (remaining self + 2 <= S fuel)%nat ->
  (scan_steps b self' <= fuel)%nat.
Proof.
  intros E H. apply _getNextByte_remaining in E.
  destruct b; simpl; [|subst]; lia.
Qed.

Lemma _decodeInt_loop_finishes (fuel : nat) :
  forall i b self,
    (scan_steps b self <= fuel)%nat -> finishes (_decodeInt_loop fuel i b self).
Proof.
  induction fuel as [|fuel IH]; intros i b self H.
  - destruct b; simpl in H; lia.
  - simpl. destruct b as [x|]; [|exact I].
    destruct (negb (bytes_eqb x THE_END)).
    + destruct (bytes_decode x); [|exact I].
      apply finishes_bind; [apply _getNextByte_finishes|].
      intros b' s' E. apply IH. eapply scan_steps_next; eauto.
    + destruct (py_int i); exact I.
Qed.

Lemma _getStrLength_loop_finishes (fuel : nat) :
  forall l b self,
    (scan_steps b self <= fuel)%nat -> finishes (_getStrLength_loop fuel l b self).
Proof.
  induction fuel as [|fuel IH]; intros l b self H.
  - destruct b; simpl in H; lia.
  - simpl. destruct b as [x|]; [|exact I].
    destruct (negb (bytes_eqb x STRING_SEP)).
    + destruct (bytes_decode x); [|exact I].
      apply finishes_bind; [apply _getNextByte_finishes|].
      intros b' s' E. apply IH. eapply scan_steps_next; eauto.
    + destruct (py_int l); exact I.
Qed.

Lemma consumes_remaining {A : Type} (self self' : Bdecode) (a : A) :
  0 <= _index self ->
  consumes self (Returns a self') ->
  0 <= _index self' /\ (S (remaining self') <= remaining self)%nat.
Proof.
  simpl. intros H0 (D & I & L). unfold remaining. rewrite D. split; lia.
Qed.

Lemma decode_finishes_all (fuel : nat) :
  (forall self, 0 <= _index self ->
     (2 * remaining self + 1 <= fuel)%nat -> finishes (decode fuel self))
  /\ (forall l self, 0 <= _index self ->
     (2 * remaining self + 2 <= fuel)%nat -> finishes (_decodeList_loop fuel l self))
  /\ (forall d self, 0 <= _index self ->
     (2 * remaining self + 2 <= fuel)%nat -> finishes (_decodeDict_loop fuel d self)).
Proof.
  induction fuel as [|fuel (IHd & IHl & IHk)]; [repeat split; intros; lia|].
  split3.
  - intros self H0 Hf. cbn [decode].
    apply finishes_bind; [apply _getNextByte_finishes|].
    intros [x|] s1 E; [|exact I].
    pose proof (_getNextByte_remaining _ _ _ E) as R. simpl in R.
    destruct (_getNextByte_one_byte _ _ _ H0 E) as (c & -> & _ & Hs1 & _).
    assert (H1 : 0 <= _index s1) by (subst s1; simpl; lia).
    destruct (bytes_eqb [c] INT).
    { apply finishes_bind; [apply _getNextByte_finishes|].
      intros b s2 E2. apply _decodeInt_loop_finishes.
      apply _getNextByte_remaining in E2. destruct b; simpl; [|subst]; lia. }
    destruct (bytes_eqb [c] LIST); [apply IHl; [exact H1|lia]|].
    destruct (bytes_eqb [c] DICT); [apply IHk; [exact H1|lia]|].
    destruct (bytes_eqb [c] THE_END); [exact I|].
    destruct (bytes_in [c] (bytes_of "0123456789")); [|exact I].
    apply finishes_bind; [|intros; exact I].
    apply _getStrLength_loop_finishes. simpl. lia.
  - intros l self H0 Hf. cbn [_decodeList_loop].
    destruct (py_index (_data self) (_index self)) as [n|]; [|exact I].
    destruct (negb (bytes_eqb (struct_pack_B n) THE_END)).
    + apply finishes_bind; [apply IHd; [exact H0|lia]|].
      intros v s' E.
      pose proof (proj1 (decode_consumes_all fuel) self H0) as C. rewrite E in C.
      apply consumes_remaining in C; [|exact H0]. destruct C as [H1 R].
      apply IHl; [exact H1|lia].
    + apply finishes_bind; [apply _getNextByte_finishes|]. intros; exact I.
  - intros d self H0 Hf. cbn [_decodeDict_loop].
    destruct (negb (bytes_eqb (py_slice (_data self) (_index self) (_index self + 1)) THE_END));
      [|exact I].
    apply finishes_bind; [apply IHd; [exact H0|lia]|].
    intros k s1 E1.
    pose proof (proj1 (decode_consumes_all fuel) self H0) as C1. rewrite E1 in C1.
    apply consumes_remaining in C1; [|exact H0]. destruct C1 as [H1 R1].
    apply finishes_bind; [apply IHd; [exact H1|lia]|].
    intros v s2 E2.
    pose proof (proj1 (decode_consumes_all fuel) s1 H1) as C2. rewrite E2 in C2.
    apply consumes_remaining in C2; [|exact H1]. destruct C2 as [H2 R2].
    destruct (hash_key k); [|exact I].
    apply IHk; [exact H2|lia].
Qed.

(** [decode] comes to a result or an exception within the budget. *)
Lemma decode_terminates (self : Bdecode) :
  0 <= _index self -> finishes (decode (budget self) self).
Proof.
  intros H0. apply (proj1 (decode_finishes_all (budget self))); [exact H0|].
  unfold budget, remaining. lia.
Qed.

Lemma run_terminates (contents : bytes) : finishes (run contents).
Proof. apply decode_terminates. simpl. lia. Qed.

(** ** More steps change nothing *)

Lemma bind_more_fuel {A B : Type} (m1 m2 : M A) (k1 k2 : A -> M B) (self : Bdecode) :
  finishes (bind m1 k1 self) ->
  (finishes (m1 self) -> m2 self = m1 self) ->
  (forall a self', m1 self = Returns a self' ->
     finishes (k1 a self') -> k2 a self' = k1 a self') ->
  bind m2 k2 self = bind m1 k1 self.
Proof.
  unfold bind. intros F Hm Hk.
  destruct (m1 self) as [a s'|e s'|] eqn:E; simpl in F; try contradiction.
  - rewrite (Hm I). apply Hk; trivial.
  - rewrite (Hm I). reflexivity.
Qed.

Lemma _decodeInt_loop_more_fuel (n : nat) :
  forall m i b self,
    (n <= m)%nat -> finishes (_decodeInt_loop n i b self) ->
    _decodeInt_loop m i b self = _decodeInt_loop n i b self.
Proof.
  induction n as [|n IH]; intros m i b self Hle F; [contradiction|].
  destruct m as [|m]; [lia|]. simpl in F |- *.
  destruct b as [x|]; trivial.
  destruct (negb (bytes_eqb x THE_END)); trivial.
  destruct (bytes_decode x); trivial.
  apply bind_more_fuel; trivial.
  intros b' s' _ F'. apply IH; [lia|exact F'].
Qed.

Lemma _getStrLength_loop_more_fuel (n : nat) :
  forall m l b self,
    (n <= m)%nat -> finishes (_getStrLength_loop n l b self) ->
    _getStrLength_loop m l b self = _getStrLength_loop n l b self.
Proof.
  induction n as [|n IH]; intros m l b self Hle F; [contradiction|].
  destruct m as [|m]; [lia|]. simpl in F |- *.
  destruct b as [x|]; trivial.
  destruct (negb (bytes_eqb x STRING_SEP)); trivial.
  destruct (bytes_decode x); trivial.
  apply bind_more_fuel; trivial.
  intros b' s' _ F'. apply IH; [lia|exact F'].
Qed.

Lemma decode_more_fuel_all (n : nat) :
  (forall m self, (n <= m)%nat -> finishes (decode n self) ->
     decode m self = decode n self)
  /\ (forall m l self, (n <= m)%nat -> finishes (_decodeList_loop n l self) ->
     _decodeList_loop m l self = _decodeList_loop n l self)
  /\ (forall m d self, (n <= m)%nat -> finishes (_decodeDict_loop n d self) ->
     _decodeDict_loop m d self = _decodeDict_loop n d self).
Proof.
  induction n as [|n (IHd & IHl & IHk)]; [repeat split; intros; contradiction|].
  split3.
  - intros [|m] self Hle F; [lia|]. cbn [decode] in F |- *.
    apply bind_more_fuel; trivial.
    intros [x|] s1 _ F1; trivial.
    destruct (bytes_eqb x INT).
    { apply bind_more_fuel; trivial.
      intros b s2 _ F2. apply _decodeInt_loop_more_fuel; [lia|exact F2]. }
    destruct (bytes_eqb x LIST); [apply IHl; [lia|exact F1]|].
    destruct (bytes_eqb x DICT); [apply IHk; [lia|exact F1]|].
    destruct (bytes_eqb x THE_END); trivial.
    destruct (bytes_in x (bytes_of "0123456789")); trivial.
    apply bind_more_fuel; trivial.
    intros F2. apply _getStrLength_loop_more_fuel; [lia|exact F2].
  - intros [|m] l self Hle F; [lia|]. cbn [_decodeList_loop] in F |- *.
    destruct (py_index (_data self) (_index self)) as [c|]; trivial.
    destruct (negb (bytes_eqb (struct_pack_B c) THE_END)); trivial.
    apply bind_more_fuel; trivial.
    + intros F1. apply IHd; [lia|exact F1].
    + intros v s' _ F'. apply IHl; [lia|exact F'].
  - intros [|m] d self Hle F; [lia|]. cbn [_decodeDict_loop] in F |- *.
    destruct (negb (bytes_eqb (py_slice (_data self) (_index self) (_index self + 1)) THE_END));
      trivial.
    apply bind_more_fuel; trivial.
    + intros F1. apply IHd; [lia|exact F1].
    + intros k s1 _ F1. apply bind_more_fuel; trivial.
      * intros F2. apply IHd; [lia|exact F2].
      * intros v s2 _ F2. destruct (hash_key k); trivial.
        apply IHk; [lia|exact F2].
Qed.

(** Any budget on which [decode] finishes gives the outcome of [budget]. *)
Lemma decode_budget (n : nat) (self : Bdecode) :
  0 <= _index self -> finishes (decode n self) ->
  decode (budget self) self = decode n self.
Proof.
  intros H0 F.
  destruct (Nat.le_ge_cases n (budget self)) as [L|L].
  - apply (proj1 (decode_more_fuel_all n)); trivial.
  - symmetry. apply (proj1 (decode_more_fuel_all (budget self))); trivial.
    apply decode_terminates, H0.
Qed.

(** ** Reading at a known byte *)

Lemma nth_error_in_range (data : bytes) (i : Z) (c : byte) :
  0 <= i -> nth_error data (Z.to_nat i) = Some c -> i + 1 <= len data.
Proof.
  intros H0 H.
  assert (Z.to_nat i < List.length data)%nat by (apply nth_error_Some; congruence).
  unfold len. lia.
Qed.

Lemma _getNextByte_at (data : bytes) (i : Z) (c : byte) :
  0 <= i -> nth_error data (Z.to_nat i) = Some c ->
  _getNextByte {| _index := i; _data := data |}
  = Returns (Some [c]) {| _index := i + 1; _data := data |}.
Proof.
  intros H0 H. pose proof (nth_error_in_range _ _ _ H0 H) as L.
  destruct (_getNextByte_cases {| _index := i; _data := data |}) as [[_ E]|[L' _]];
    simpl in *; [|lia].
  rewrite E. destruct (py_slice_one data i H0 L) as (c' & -> & Hc & _).
  unfold set_index; simpl. rewrite H in Hc. inversion Hc. reflexivity.
Qed.

Lemma py_index_at (data : bytes) (i : Z) (c : byte) :
  0 <= i -> nth_error data (Z.to_nat i) = Some c -> py_index data i = Some c.
Proof.
  intros H0 H. pose proof (nth_error_in_range _ _ _ H0 H) as L.
  destruct (py_slice_one data i H0 L) as (c' & _ & Hc & ->). rewrite <- Hc. exact H.
Qed.

Lemma py_slice_at (data : bytes) (i : Z) (c : byte) :
  0 <= i -> nth_error data (Z.to_nat i) = Some c -> py_slice data i (i + 1) = [c].
Proof.
  intros H0 H. pose proof (nth_error_in_range _ _ _ H0 H) as L.
  destruct (py_slice_one data i H0 L) as (c' & -> & Hc & _).
  rewrite H in Hc. inversion Hc. reflexivity.
Qed.

(** ** Dictionaries *)

Lemma bytes_eqb_eq (x y : bytes) : bytes_eqb x y = true <-> x = y.
Proof.
  revert y. induction x as [|a x IH]; intros [|c y]; unfold bytes_eqb; fold bytes_eqb;
    split; intros H; try discriminate; trivial.
  - apply andb_true_iff in H. destruct H as [Hac Hxy].
    apply byte_dec_bl in Hac. apply IH in Hxy. congruence.
  - inversion H; subst. apply andb_true_iff. split.
    + apply byte_dec_lb. reflexivity.
    + apply IH. reflexivity.
Qed.

Lemma key_eqb_eq (k1 k2 : key) : key_eqb k1 k2 = true <-> k1 = k2.
Proof.
  destruct k1, k2; simpl; split; intros H; try discriminate; trivial.
  - apply Z.eqb_eq in H. congruence.
  - inversion H. apply Z.eqb_refl.
  - apply bytes_eqb_eq in H. congruence.
  - inversion H. apply bytes_eqb_eq. reflexivity.
Qed.

Lemma key_eqb_refl (k : key) : key_eqb k k = true.
Proof. apply key_eqb_eq. reflexivity. Qed.

Lemma setitem_keys_present (k : key) (v v0 : value) (d : list (key * value)) :
  getitem k d = Some v0 -> keys (setitem k v d) = keys d.
Proof.
  induction d as [|[k' v'] d IH]; simpl; [discriminate|].
  destruct (key_eqb k k'); simpl; trivial.
  intros H. f_equal. apply IH, H.
Qed.

Lemma setitem_keys_absent (k : key) (v : value) (d : list (key * value)) :
  getitem k d = None -> keys (setitem k v d) = keys d ++ [k].
Proof.
  induction d as [|[k' v'] d IH]; simpl; trivial.
  destruct (key_eqb k k'); simpl; [discriminate|].
  intros H. f_equal. apply IH, H.
Qed.

Lemma getitem_setitem_same (k : key) (v : value) (d : list (key * value)) :
  getitem k (setitem k v d) = Some v.
Proof.
  induction d as [|[k' v'] d IH]; simpl.
  - rewrite key_eqb_refl. reflexivity.
  - destruct (key_eqb k k') eqn:E; simpl; rewrite E; trivial.
Qed.

Lemma getitem_setitem_other (k k0 : key) (v : value) (d : list (key * value)) :
  key_eqb k0 k = false -> getitem k0 (setitem k v d) = getitem k0 d.
Proof.
  intros Hne. induction d as [|[k' v'] d IH]; simpl.
  - rewrite Hne. reflexivity.
  - destruct (key_eqb k k') eqn:E; simpl.
    + apply key_eqb_eq in E. subst k'. rewrite Hne. reflexivity.
    + rewrite IH. reflexivity.
Qed.

Lemma getitem_None_not_in (k : key) (d : list (key * value)) :
  getitem k d = None -> ~ In k (keys d).
Proof.
  induction d as [|[k' v'] d IH]; simpl; [tauto|].
  destruct (key_eqb k k') eqn:E; [discriminate|].
  intros H [->|Hin]; [|exact (IH H Hin)].
  rewrite key_eqb_refl in E. discriminate.
Qed.

(** [d[k] = v] keeps the keys of an [OrderedDict] distinct. *)
Lemma setitem_NoDup (k : key) (v : value) (d : list (key * value)) :
  NoDup (keys d) -> NoDup (keys (setitem k v d)).
Proof.
  intros H. destruct (getitem k d) as [v0|] eqn:E.
  - rewrite (setitem_keys_present k v v0 d E). exact H.
  - rewrite (setitem_keys_absent k v d E).
    apply NoDup_app; [exact H|constructor; [simpl; tauto|constructor]|].
    intros a Ha [<-|[]]. exact (getitem_None_not_in _ _ E Ha).
Qed.

(** The dictionary [_decodeDict] returns has one entry for each key. *)
Lemma _decodeDict_loop_NoDup (fuel : nat) :
  forall d self v self',
    NoDup (keys d) ->
    _decodeDict_loop fuel d self = Returns v self' ->
    exists d', v = VDict d' /\ NoDup (keys d').
Proof.
  induction fuel as [|fuel IH]; intros d self v self' Hd H; [discriminate|].
  cbn [_decodeDict_loop] in H.
  destruct (negb (bytes_eqb (py_slice (_data self) (_index self) (_index self + 1)) THE_END)).
  - unfold bind in H.
    destruct (decode fuel self) as [k s1| |]; try discriminate.
    destruct (decode fuel s1) as [w s2| |]; try discriminate.
    destruct (hash_key k) as [hk|]; [|discriminate].
    eapply IH; [|exact H]. apply setitem_NoDup, Hd.
  - inversion H; subst. eauto.
Qed.

(** When [_decodeDict] returns, the cursor is where its loop test read the
    terminator: on the [e], which has not been consumed. *)
Lemma _decodeDict_loop_stops_on_terminator (fuel : nat) :
  forall d self v self',
    _decodeDict_loop fuel d self = Returns v self' ->
    py_slice (_data self') (_index self') (_index self' + 1) = THE_END.
Proof.
  induction fuel as [|fuel IH]; intros d self v self' H; [discriminate|].
  cbn [_decodeDict_loop] in H.
  destruct (negb (bytes_eqb (py_slice (_data self) (_index self) (_index self + 1)) THE_END))
    eqn:E.
  - unfold bind in H.
    destruct (decode fuel self) as [k s1| |]; try discriminate.
    destruct (decode fuel s1) as [w s2| |]; try discriminate.
    destruct (hash_key k) as [hk|]; [|discriminate].
    eapply IH; exact H.
  - inversion H; subst. apply negb_false_iff in E. apply bytes_eqb_eq, E.
Qed.

(** When [_decodeList] returns, the byte before the cursor is the
    terminator it consumed. *)
Lemma _decodeList_loop_consumes_terminator (fuel : nat) :
  forall l self v self',
    0 <= _index self ->
    _decodeList_loop fuel l self = Returns v self' ->
    nth_error (_data self') (Z.to_nat (_index self' - 1)) = Some "e"%byte
    /\ 1 <= _index self'.
Proof.
  induction fuel as [|fuel IH]; intros l self v self' H0 H; [discriminate|].
  cbn [_decodeList_loop] in H.
  destruct (py_index (_data self) (_index self)) as [c|] eqn:Hc; [|discriminate].
  destruct (negb (bytes_eqb (struct_pack_B c) THE_END)) eqn:E.
  - unfold bind in H.
    destruct (decode fuel self) as [w s1| |] eqn:E1; try discriminate.
    pose proof (proj1 (decode_consumes_all fuel) self H0) as C. rewrite E1 in C.
    simpl in C. eapply IH; [|exact H]. lia.
  - apply negb_false_iff, bytes_eqb_eq in E. inversion E; subst c.
    assert (L : _index self + 1 <= len (_data self)).
    { unfold py_index in Hc.
      replace (_index self <? 0) with false in Hc by (symmetry; apply Z.ltb_ge; lia).
      destruct (_index self <? len (_data self)) eqn:Hlt.
      - apply Z.ltb_lt in Hlt. lia.
      - rewrite andb_false_r in Hc. discriminate. }
    destruct (py_slice_one (_data self) (_index self) H0 L) as (c' & _ & Hn & Hp).
    rewrite Hc in Hp. inversion Hp; subst c'.
    unfold bind in H.
    destruct (_getNextByte_cases self) as [[_ E2]|[L' _]]; [|lia].
    rewrite E2 in H. inversion H; subst. simpl.
    replace (_index self + 1 - 1) with (_index self) by lia.
    split; [exact Hn|lia].
Qed.

(** ** The dispatch of [decode] on a known byte *)

Lemma decode_at (fuel : nat) (data : bytes) (i : Z) (c : byte) :
  0 <= i -> nth_error data (Z.to_nat i) = Some c ->
  decode (S fuel) {| _index := i; _data := data |}
  = (if bytes_eqb [c] INT then _decodeInt fuel
     else if bytes_eqb [c] LIST then _decodeList_loop fuel []
     else if bytes_eqb [c] DICT then _decodeDict_loop fuel []
     else if bytes_eqb [c] THE_END then ret VNone
     else if bytes_in [c] (bytes_of "0123456789") then
       length <- _getStrLength fuel (Some [c]) ;; _decodeStr length
     else raise ValueError_format) {| _index := i + 1; _data := data |}.
Proof.
  intros H0 H. cbn [decode]. unfold bind at 1.
  rewrite (_getNextByte_at data i c H0 H). reflexivity.
Qed.

Lemma _decodeList_loop_at_end (fuel : nat) (l : list value) (data : bytes) (i : Z) :
  0 <= i -> nth_error data (Z.to_nat i) = Some "e"%byte ->
  _decodeList_loop (S fuel) l {| _index := i; _data := data |}
  = Returns (VList l) {| _index := i + 1; _data := data |}.
Proof.
  intros H0 H. cbn [_decodeList_loop]. cbn [_index _data].
  rewrite (py_index_at data i _ H0 H).
  replace (negb (bytes_eqb (struct_pack_B "e"%byte) THE_END)) with false by reflexivity.
  unfold bind. rewrite (_getNextByte_at data i _ H0 H). reflexivity.
Qed.

Lemma _decodeList_loop_at_item (fuel : nat) (l : list value) (data : bytes) (i : Z) (c : byte) :
  0 <= i -> nth_error data (Z.to_nat i) = Some c -> c <> "e"%byte ->
  _decodeList_loop (S fuel) l {| _index := i; _data := data |}
  = (v <- decode fuel ;; _decodeList_loop fuel (l ++ [v])) {| _index := i; _data := data |}.
Proof.
  intros H0 H Hc. cbn [_decodeList_loop]. cbn [_index _data].
  rewrite (py_index_at data i _ H0 H).
  replace (negb (bytes_eqb (struct_pack_B c) THE_END)) with true; [reflexivity|].
  symmetry. apply negb_true_iff.
  destruct (bytes_eqb (struct_pack_B c) THE_END) eqn:E; trivial.
  apply bytes_eqb_eq in E. inversion E. contradiction.
Qed.







(** ** The dictionaries [decode] returns *)

Lemma items_well_keyed_app (l : list value) (v : value) :
  items_well_keyed l -> well_keyed v -> items_well_keyed (l ++ [v]).
Proof.
  induction l as [|x l IH]; simpl; [tauto|].
  intros [Hx Hl] Hv. split; [exact Hx|apply IH; assumption].
Qed.

Lemma entries_well_keyed_setitem (k : key) (v : value) (d : list (key * value)) :
  entries_well_keyed d -> well_keyed v -> entries_well_keyed (setitem k v d).
Proof.
  induction d as [|[k' v'] d IH]; simpl; [tauto|].
  intros [Hv' Hd] Hv. destruct (key_eqb k k'); simpl; [tauto|].
  split; [exact Hv'|apply IH; assumption].
Qed.

Lemma setitem_keys_In (k k0 : key) (v : value) (d : list (key * value)) :
  In k0 (keys (setitem k v d)) -> k0 = k \/ In k0 (keys d).
Proof.
  destruct (getitem k d) as [v0|] eqn:E.
  - rewrite (setitem_keys_present k v v0 d E). auto.
  - rewrite (setitem_keys_absent k v d E). intros H.
    apply in_app_or in H. destruct H as [H|[H|[]]]; auto.
Qed.

Lemma _decodeInt_loop_returns_int (fuel : nat) :
  forall i b self v self',
    _decodeInt_loop fuel i b self = Returns v self' -> exists z, v = VInt z.
Proof.
  induction fuel as [|fuel IH]; intros i b self v self' H; [discriminate|].
  simpl in H. destruct b as [x|]; [|discriminate].
  destruct (negb (bytes_eqb x THE_END)).
  - destruct (bytes_decode x); [|discriminate].
    unfold bind in H. destruct (_getNextByte self) as [b' s1| |]; try discriminate.
    eapply IH, H.
  - destruct (py_int i); inversion H. eauto.
Qed.

Lemma decode_well_keyed_all (fuel : nat) :
  (forall self v self',
     0 <= _index self -> decode fuel self = Returns v self' ->
     well_keyed v
     /\ (v = VNone -> py_slice (_data self) (_index self) (_index self + 1) = THE_END))
  /\ (forall l self v self',
     0 <= _index self -> items_well_keyed l ->
     _decodeList_loop fuel l self = Returns v self' -> well_keyed v /\ v <> VNone)
  /\ (forall d self v self',
     0 <= _index self ->
     NoDup (keys d) -> ~ In KNone (keys d) -> entries_well_keyed d ->
     _decodeDict_loop fuel d self = Returns v self' -> well_keyed v /\ v <> VNone).
Proof.
  induction fuel as [|fuel (IHd & IHl & IHk)]; [repeat split; discriminate|].
  split3.
  - intros self v self' H0 H. cbn [decode] in H. unfold bind at 1 in H.
    destruct (_getNextByte self) as [[x|] s1| |] eqn:E; try discriminate.
    destruct (_getNextByte_one_byte _ _ _ H0 E) as (c & -> & Hc & -> & Hlen).
    assert (H1 : 0 <= _index (set_index self (_index self + 1))) by (simpl; lia).
    destruct (bytes_eqb [c] INT).
    { unfold _decodeInt, bind in H.
      destruct (_getNextByte (set_index self (_index self + 1))) as [b s2| |];
        try discriminate.
      apply _decodeInt_loop_returns_int in H. destruct H as [z ->].
      split; [exact I|discriminate]. }
    destruct (bytes_eqb [c] LIST).
    { destruct (IHl [] _ _ _ H1 I H) as [W N]. split; [exact W|contradiction]. }
    destruct (bytes_eqb [c] DICT).
    { destruct (IHk [] _ _ _ H1 (NoDup_nil _) (fun F => F) I H) as [W N].
      split; [exact W|contradiction]. }
    destruct (bytes_eqb [c] THE_END) eqn:Ee.
    { inversion H; subst. split; [exact I|intros _].
      rewrite (py_slice_at _ _ _ H0 Hc). apply bytes_eqb_eq, Ee. }
    destruct (bytes_in [c] (bytes_of "0123456789")); [|discriminate].
    unfold bind in H.
    match type of H with
    | context [_getStrLength ?f ?b ?s] =>
        destruct (_getStrLength f b s) as [n s2| |]; try discriminate
    end.
    inversion H; subst. split; [exact I|discriminate].
  - intros l self v self' H0 Hl H. cbn [_decodeList_loop] in H.
    destruct (py_index (_data self) (_index self)) as [c|]; [|discriminate].
    destruct (negb (bytes_eqb (struct_pack_B c) THE_END)).
    + unfold bind in H.
      destruct (decode fuel self) as [w s1| |] eqn:E1; try discriminate.
      pose proof (proj1 (decode_consumes_all fuel) self H0) as C. rewrite E1 in C.
      simpl in C.
      destruct (IHd _ _ _ H0 E1) as [Ww _].
      eapply IHl; [|apply items_well_keyed_app; eassumption|exact H]. lia.
    + unfold bind in H. destruct (_getNextByte self) as [o s1| |]; try discriminate.
      inversion H; subst. split; [exact Hl|discriminate].
  - intros d self v self' H0 Hnd Hnn Hd H. cbn [_decodeDict_loop] in H.
    destruct (negb (bytes_eqb (py_slice (_data self) (_index self) (_index self + 1)) THE_END))
      eqn:Et.
    + unfold bind in H.
      destruct (decode fuel self) as [k s1| |] eqn:E1; try discriminate.
      destruct (decode fuel s1) as [w s2| |] eqn:E2; try discriminate.
      pose proof (proj1 (decode_consumes_all fuel) self H0) as C1. rewrite E1 in C1.
      simpl in C1. assert (H1 : 0 <= _index s1) by lia.
      pose proof (proj1 (decode_consumes_all fuel) s1 H1) as C2. rewrite E2 in C2.
      simpl in C2.
      destruct (IHd _ _ _ H0 E1) as [_ Kn].
      destruct (IHd _ _ _ H1 E2) as [Ww _].
      destruct (hash_key k) as [hk|] eqn:Eh; [|discriminate].
      eapply IHk; [| | | |exact H].
      * lia.
      * apply setitem_NoDup, Hnd.
      * intros Hin. apply setitem_keys_In in Hin. destruct Hin as [Hin|Hin]; [|tauto].
        subst hk. destruct k; try discriminate Eh.
        rewrite (Kn eq_refl) in Et. vm_compute in Et. discriminate.
      * apply entries_well_keyed_setitem; assumption.
    + inversion H; subst. split; [|discriminate]. simpl. auto.
Qed.

(** Whatever the buffer, a value [decode] returns is well keyed. *)
Lemma run_well_keyed (contents : bytes) (v : value) (self' : Bdecode) :
  run contents = Returns v self' -> well_keyed v.
Proof.
  intros H. unfold run in H.
  apply (proj1 (decode_well_keyed_all _)) in H; [tauto|simpl; lia].
Qed.

(** * The claims *)

(** ** C1: the terminator of a dictionary *)

(** C1 (the code departs from it).  The claim: when the dictionary routine
    returns, the cursor is one past the dictionary's terminating [e], so that
    an enclosing list resumes behind the dictionary and loses no element.
    [_decodeDict] returns without reading the terminator, where [_decodeList]
    reads it: on [b"de"] the cursor is left at offset 1, on the [e]
    ([b"le"] leaves it at 2), and in [b"ldei1ee"] the enclosing list takes
    the dictionary's [e] for its own, returns [[{}]] at offset 3 and never
    reads the element [i1e]. *)
Theorem C1_dict_terminator_left_unread :
  run (bytes_of "de") = Returns (VDict []) {| _index := 1; _data := bytes_of "de" |}
  /\ run (bytes_of "le") = Returns (VList []) {| _index := 2; _data := bytes_of "le" |}
  /\ run (bytes_of "ldei1ee")
     = Returns (VList [VDict []]) {| _index := 3; _data := bytes_of "ldei1ee" |}
  /\ run (bytes_of "llei1ee")
     = Returns (VList [VList []; VInt 1]) {| _index := 7; _data := bytes_of "llei1ee" |}.
Proof. repeat split; vm_compute; reflexivity. Qed.

(** ** C2: a byte string longer than the buffer *)

(** C2 (the code departs from it).  The claim: a declared length that
    exceeds the bytes left behind the [:] makes [decode] fail with the
    end-of-file error, and no truncated byte string is returned.  On
    [b"5:ab"] [_decodeStr] slices past the end without a test: [decode]
    returns the two bytes [b"ab"] and leaves the cursor at 7. *)
Theorem C2_truncated_string_returned :
  run (bytes_of "5:ab")
  = Returns (VBytes (bytes_of "ab")) {| _index := 7; _data := bytes_of "5:ab" |}.
Proof. vm_compute. reflexivity. Qed.

(** ** C3: the cursor stays inside the buffer *)

(** C3 (the code departs from it).  The claim: the cursor is an offset with
    [0 <= offset <= len(buffer)], never moves back, and no read moves it past
    the end of the buffer.  [_getNextByte] keeps to that, and every run ends
    on the buffer it began with and a cursor that is not negative; but
    [_decodeStr] adds the declared length to the cursor untested, and the run
    on [b"5:ab"] ends with the cursor at 7 in a buffer of 4 bytes. *)
Theorem C3_cursor_passes_the_end :
  (forall self,
     match _getNextByte self with
     | Returns _ self' =>
         _data self' = _data self
         /\ _index self <= _index self' <= Z.max (_index self) (len (_data self))
     | _ => False
     end)
  /\ (forall contents,
        match run contents with
        | Returns _ self' => _data self' = contents /\ 0 <= _index self'
        | Raises _ self' => _data self' = contents /\ 0 <= _index self'
        | OutOfFuel => False
        end)
  /\ (exists v self',
        run (bytes_of "5:ab") = Returns v self'
        /\ len (_data self') = 4 /\ _index self' = 7).
Proof.
  split3.
  - intros self. destruct (_getNextByte self) as [o s'|e s'|] eqn:E.
    + apply _getNextByte_index in E. destruct E as [[D I] B]. auto.
    + destruct (_getNextByte_cases self) as [[_ E']|[_ E']]; congruence.
    + destruct (_getNextByte_cases self) as [[_ E']|[_ E']]; congruence.
  - intros contents.
    pose proof (run_terminates contents) as F.
    assert (H0 : 0 <= _index (__init__ contents)) by (simpl; lia).
    pose proof (consumes_monotone _ _
                  (proj1 (decode_consumes_all (budget (__init__ contents))) _ H0)) as C.
    unfold run in *.
    destruct (decode (budget (__init__ contents)) (__init__ contents));
      simpl in *; trivial; destruct C as [D I]; simpl in *; split; trivial; lia.
  - eexists. eexists. split; [vm_compute; reflexivity|split; reflexivity].
Qed.

(** ** C4: a terminator where a value is expected *)

(** C4, as stated, fails on [b"e"]: [decode] returns [None] and raises
    nothing. *)
Lemma C4_terminator_first_returns_None :
  run (bytes_of "e") = Returns VNone {| _index := 1; _data := bytes_of "e" |}.
Proof. vm_compute. reflexivity. Qed.

(** C4 (amended).  When the first byte a top-level [decode()] reads is the
    terminator [e], [decode] raises no error: it returns the null-like value
    [None], having read that one byte (the cursor is left at offset 1),
    whatever follows in the buffer. *)
Theorem C4_terminator_first_is_None (rest : bytes) :
  run ("e"%byte :: rest)
  = Returns VNone {| _index := 1; _data := "e"%byte :: rest |}.
Proof.
  unfold run, __init__, budget.
  rewrite decode_at with (c := "e"%byte); [|lia|reflexivity].
  reflexivity.
Qed.

(** ** C5: the type of a dictionary key *)

(** C5, as stated, fails: in [b"di1ei2ee"] the key decodes to the integer 1,
    and [decode] returns the dictionary [{1: 2}]; the claim's own example
    [b"d4:spami42ee"] has the byte-string key [spam] and decodes to
    [{spam: 42}]. *)
Lemma C5_integer_key_accepted :
  run (bytes_of "di1ei2ee")
  = Returns (VDict [(KInt 1, VInt 2)]) {| _index := 7; _data := bytes_of "di1ei2ee" |}
  /\ run (bytes_of "d4:spami42ee")
     = Returns (VDict [(KBytes (bytes_of "spam"), VInt 42)])
               {| _index := 11; _data := bytes_of "d4:spami42ee" |}.
Proof. split; vm_compute; reflexivity. Qed.

(** C5 (amended).  [_decodeDict] does not test the type of a key, and there
    is no error for it.  In a pass of its loop that decodes a key [k] and
    then a value [v]: an integer or byte-string key is stored with [v] and
    the loop goes on; a key that is a list or a dictionary makes the store
    [d[key] = value] fail with [TypeError] (unhashable), after the value has
    been decoded. *)
Theorem C5_dict_key_stored_unless_unhashable
    (fuel : nat) (d : list (key * value)) (self s1 s2 : Bdecode) (k v : value) :
  bytes_eqb (py_slice (_data self) (_index self) (_index self + 1)) THE_END = false ->
  decode fuel self = Returns k s1 ->
  decode fuel s1 = Returns v s2 ->
  _decodeDict_loop (S fuel) d self
  = match k with
    | VInt z => _decodeDict_loop fuel (setitem (KInt z) v d) s2
    | VBytes x => _decodeDict_loop fuel (setitem (KBytes x) v d) s2
    | VNone => _decodeDict_loop fuel (setitem KNone v d) s2
    | VList _ => Raises TypeError_unhashable s2
    | VDict _ => Raises TypeError_unhashable s2
    end.
Proof.
  intros Hne Hk Hv. cbn [_decodeDict_loop]. rewrite Hne. cbn [negb].
  unfold bind. rewrite Hk, Hv. destruct k; reflexivity.
Qed.

(** C5, at work on [b"dlei2ee"], whose key decodes to the empty list: the
    pass of the loop raises [TypeError], and so does the whole run. *)
Lemma C5_list_key_raises_TypeError :
  let data := bytes_of "dlei2ee" in
  let at_ (i : Z) := {| _index := i; _data := data |} in
  (bytes_eqb (py_slice data 1 2) THE_END = false
   /\ decode 10 (at_ 1) = Returns (VList []) (at_ 3)
   /\ decode 10 (at_ 3) = Returns (VInt 2) (at_ 6))
  /\ _decodeDict_loop 11 [] (at_ 1) = Raises TypeError_unhashable (at_ 6)
  /\ run data = Raises TypeError_unhashable (at_ 6).
Proof.
  intros data at_.
  assert (H1 : bytes_eqb (py_slice data 1 2) THE_END = false) by (vm_compute; reflexivity).
  assert (H2 : decode 10 (at_ 1) = Returns (VList []) (at_ 3)) by (vm_compute; reflexivity).
  assert (H3 : decode 10 (at_ 3) = Returns (VInt 2) (at_ 6)) by (vm_compute; reflexivity).
  split; [auto|]. split.
  - exact (C5_dict_key_stored_unless_unhashable 10 [] (at_ 1) (at_ 3) (at_ 6)
             (VList []) (VInt 2) H1 H2 H3).
  - vm_compute. reflexivity.
Defined.

(** ** C6: an integer with no digits *)

(** C6.  On [b"ie"] [decode] fails: the text between [i] and [e] is empty,
    [int] checks it as a signed integer literal and rejects it, and the
    [ValueError] of that check is what [decode] raises; no value is
    returned. *)
Theorem C6_empty_integer_rejected :
  run (bytes_of "ie")
  = Raises (ValueError_int EmptyString) {| _index := 2; _data := bytes_of "ie" |}.
Proof. vm_compute. reflexivity. Qed.

(** ** C7: a byte string *)

(** C7.  On [b"4:spam"] [decode] returns the byte string [spam] and leaves
    the cursor at offset 6: it has read exactly 6 bytes. *)
Theorem C7_spam_decodes :
  run (bytes_of "4:spam")
  = Returns (VBytes (bytes_of "spam")) {| _index := 6; _data := bytes_of "4:spam" |}.
Proof. vm_compute. reflexivity. Qed.

(** ** C9: the depth of nesting *)




(** * Bencoded input *)

(** ** Decimal numerals *)

Lemma digit_byte_is_digit (d : Z) : is_digit_byte (digit_byte d) = true.
Proof.
  destruct d as [|p|p]; try reflexivity.
  do 4 (try destruct p as [p|p|]; try reflexivity).
Qed.

Lemma digit_byte_value (d : Z) :
  0 <= d <= 9 -> digit_value (ascii_of_byte (digit_byte d)) = Some d.
Proof.
  intros H.
  assert (C : d = 0 \/ d = 1 \/ d = 2 \/ d = 3 \/ d = 4 \/ d = 5 \/ d = 6 \/ d = 7
              \/ d = 8 \/ d = 9) by lia.
  repeat (destruct C as [->|C]; [reflexivity|]). subst. reflexivity.
Qed.

Lemma is_digit_byte_facts (c : byte) :
  is_digit_byte c = true ->
  scannable "e" c = true /\ scannable ":" c = true
  /\ bytes_eqb [c] INT = false /\ bytes_eqb [c] LIST = false
  /\ bytes_eqb [c] DICT = false /\ bytes_eqb [c] THE_END = false
  /\ bytes_in [c] (bytes_of "0123456789") = true
  /\ digit_led (text_of [c]) = true.
Proof. destruct c; intros H; try discriminate H; repeat split; reflexivity. Qed.

Lemma decimal_digits_all_digits (fuel : nat) :
  forall n tail,
    forallb is_digit_byte tail = true ->
    forallb is_digit_byte (decimal_digits fuel n tail) = true.
Proof.
  induction fuel as [|fuel IH]; intros n tail H; cbn [decimal_digits]; trivial.
  assert (H' : forallb is_digit_byte (digit_byte (n mod 10) :: tail) = true).
  { cbn [forallb]. rewrite digit_byte_is_digit. exact H. }
  destruct (n <? 10); [exact H'|]. apply IH, H'.
Qed.

Lemma decimal_digits_not_nil (fuel : nat) (n : Z) (tail : bytes) :
  decimal_digits (S fuel) n tail <> [].
Proof.
  revert n tail. induction fuel as [|fuel IH]; intros n tail; cbn [decimal_digits].
  - destruct (n <? 10); discriminate.
  - destruct (n <? 10); [discriminate|]. apply IH.
Qed.

Lemma decimal_all_digits (n : Z) : forallb is_digit_byte (decimal n) = true.
Proof. apply decimal_digits_all_digits. reflexivity. Qed.

Lemma decimal_not_nil (n : Z) : decimal n <> [].
Proof. apply decimal_digits_not_nil. Qed.

(** Reading the digits back: the scan of [int] over the numeral of [n]
    carries its accumulator [a] to [a * 10 ^ k + n], [k] the digits read. *)
Lemma scan_decimal_digits (fuel : nat) :
  forall n tail a,
    0 <= n < 2 ^ Z.of_nat fuel ->
    exists k, 0 <= k /\
      scan_digits a false (text_of (decimal_digits fuel n tail))
      = scan_digits (a * 10 ^ k + n) false (text_of tail).
Proof.
  induction fuel as [|fuel IH]; intros n tail a Hn.
  - exists 0. split; [lia|]. cbn [decimal_digits].
    replace (a * 10 ^ 0 + n) with a by (simpl in Hn; lia). reflexivity.
  - cbn [decimal_digits].
    assert (Hm : 0 <= n mod 10 <= 9) by (pose proof (Z.mod_pos_bound n 10); lia).
    destruct (n <? 10) eqn:E.
    + apply Z.ltb_lt in E. exists 1. split; [lia|].
      cbn [text_of scan_digits]. rewrite (digit_byte_value _ Hm).
      rewrite Z.mod_small by lia. f_equal. rewrite Z.pow_1_r. lia.
    + apply Z.ltb_ge in E.
      destruct (IH (n / 10) (digit_byte (n mod 10) :: tail) a) as (k & Hk & Hs).
      { split; [apply Z.div_pos; lia|].
        rewrite Nat2Z.inj_succ, Z.pow_succ_r in Hn by lia.
        apply Z.div_lt_upper_bound; lia. }
      exists (k + 1). split; [lia|]. rewrite Hs.
      cbn [text_of scan_digits]. rewrite (digit_byte_value _ Hm).
      f_equal. rewrite Z.pow_add_r by lia.
      pose proof (Z.div_mod n 10). lia.
Qed.

Lemma lstrip_digit_led (s : string) : digit_led s = true -> lstrip s = s.
Proof.
  destruct s as [|c s]; [discriminate|]. simpl.
  destruct (digit_value c) as [d|] eqn:Hd; [intros _|discriminate].
  rewrite (digit_not_space _ _ Hd). reflexivity.
Qed.

Lemma text_of_decimal_led (n : Z) : digit_led (text_of (decimal n)) = true.
Proof.
  pose proof (decimal_all_digits n) as H. pose proof (decimal_not_nil n) as N.
  destruct (decimal n) as [|c t]; [contradiction|].
  cbn [forallb] in H. apply andb_true_iff in H. destruct H as [H _].
  apply (is_digit_byte_facts c H).
Qed.

Lemma py_int_decimal (n : Z) : 0 <= n -> py_int (text_of (decimal n)) = Some n.
Proof.
  intros Hn. pose proof (text_of_decimal_led n) as L.
  assert (S : scan_digits 0 false (text_of (decimal n)) = Some (n, EmptyString)).
  { destruct (scan_decimal_digits (S (Z.to_nat (Z.log2 n))) n [] 0) as (k & _ & Hs).
    - split; [exact Hn|].
      destruct (Z.eq_dec n 0) as [->|Hne]; [reflexivity|].
      replace (Z.of_nat (S (Z.to_nat (Z.log2 n)))) with (Z.succ (Z.log2 n))
        by (pose proof (Z.log2_nonneg n); lia).
      apply Z.log2_spec. lia.
    - unfold decimal. rewrite Hs. reflexivity. }
  unfold py_int. rewrite (lstrip_digit_led _ L).
  destruct (text_of (decimal n)) as [|c s] eqn:E; [discriminate|].
  simpl in L. destruct (digit_value c) as [d|] eqn:Hd; [|discriminate].
  destruct (digit_not_sign _ _ Hd) as [-> ->].
  unfold unsigned_literal. rewrite Hd, S. reflexivity.
Qed.

Lemma py_int_decimal_Z (z : Z) : py_int (text_of (decimal_Z z)) = Some z.
Proof.
  unfold decimal_Z. destruct (z <? 0) eqn:E.
  - apply Z.ltb_lt in E. cbn [text_of].
    pose proof (py_int_decimal (- z)) as P.
    pose proof (text_of_decimal_led (- z)) as L.
    unfold py_int in P |- *. rewrite (lstrip_digit_led _ L) in P.
    change (ascii_of_byte "-") with "-"%char. cbn [lstrip].
    replace (is_space "-") with false by reflexivity.
    rewrite Ascii.eqb_refl.
    destruct (text_of (decimal (- z))) as [|c s] eqn:Et; [discriminate|].
    simpl in L. destruct (digit_value c) as [d|] eqn:Hd; [|discriminate].
    destruct (digit_not_sign _ _ Hd) as [E1 E2]. rewrite E1, E2 in P.
    rewrite P by lia. simpl. f_equal. lia.
  - apply Z.ltb_ge in E. apply py_int_decimal, E.
Qed.

Lemma digits_scannable (stop : byte) (t : bytes) :
  is_digit_byte stop = false ->
  forallb is_digit_byte t = true -> forallb (scannable stop) t = true.
Proof.
  intros Hs. induction t as [|c t IH]; trivial. cbn [forallb]. intros H.
  apply andb_true_iff in H. destruct H as [Hc Ht]. rewrite (IH Ht), andb_true_r.
  unfold scannable. apply andb_true_iff. split.
  - destruct (is_digit_byte_facts c Hc) as (S & _). unfold scannable in S.
    apply andb_true_iff in S. tauto.
  - apply negb_true_iff. destruct (Byte.eqb c stop) eqn:E; trivial.
    apply byte_dec_bl in E. subst. congruence.
Qed.

Lemma decimal_Z_scannable (stop : byte) (z : Z) :
  is_digit_byte stop = false -> stop <> "-"%byte ->
  forallb (scannable stop) (decimal_Z z) = true.
Proof.
  intros Hs Hm. unfold decimal_Z. destruct (z <? 0).
  - cbn [forallb]. rewrite (digits_scannable stop _ Hs (decimal_all_digits _)).
    rewrite andb_true_r. unfold scannable. apply andb_true_iff.
    split; [reflexivity|].
    apply negb_true_iff. destruct (Byte.eqb "-" stop) eqn:E; trivial.
    apply byte_dec_bl in E. congruence.
  - apply digits_scannable; [exact Hs|apply decimal_all_digits].
Qed.

(** ** Positions in a buffer *)

Lemma len_app {A : Type} (a b : list A) : len (a ++ b) = len a + len b.
Proof. unfold len. rewrite length_app. lia. Qed.

Lemma len_cons {A : Type} (c : A) (a : list A) : len (c :: a) = 1 + len a.
Proof. unfold len. cbn [List.length]. lia. Qed.

Lemma len_nil {A : Type} : len (@nil A) = 0.
Proof. reflexivity. Qed.

Lemma len_nonneg {A : Type} (a : list A) : 0 <= len a.
Proof. unfold len. lia. Qed.

Ltac len_lia :=
  repeat rewrite ?len_app, ?len_cons, ?len_nil in *; unfold len in *;
  cbn [List.length] in *; lia.

Lemma nth_error_mid (pre : bytes) (c : byte) (rest : bytes) :
  nth_error (pre ++ c :: rest) (Z.to_nat (len pre)) = Some c.
Proof.
  unfold len. rewrite Nat2Z.id, nth_error_app2, Nat.sub_diag by lia. reflexivity.
Qed.

Lemma _getNextByte_mid (pre : bytes) (c : byte) (rest data : bytes) :
  data = pre ++ c :: rest ->
  _getNextByte (mkBdecode (len pre) data)
  = Returns (Some [c]) (mkBdecode (len pre + 1) data).
Proof.
  intros ->. apply _getNextByte_at; [apply len_nonneg|apply nth_error_mid].
Qed.

Lemma _getNextByte_end (data : bytes) (i : Z) :
  len data <= i ->
  _getNextByte (mkBdecode i data) = Returns None (mkBdecode i data).
Proof.
  intros H.
  destruct (_getNextByte_cases (mkBdecode i data)) as [[L _]|[_ E]]; [simpl in L; lia|exact E].
Qed.

Lemma py_slice_end (data : bytes) (i : Z) :
  len data <= i -> py_slice data i (i + 1) = [].
Proof.
  intros H. pose proof (len_nonneg data) as N. unfold py_slice, clamp_bound.
  replace (i <? 0) with false by (symmetry; apply Z.ltb_ge; lia).
  replace (i + 1 <? 0) with false by (symmetry; apply Z.ltb_ge; lia).
  rewrite !Z.min_r by lia. rewrite Z.sub_diag. reflexivity.
Qed.

Lemma py_index_end (data : bytes) (i : Z) :
  len data <= i -> py_index data i = None.
Proof.
  intros H. pose proof (len_nonneg data) as N. unfold py_index.
  replace (i <? 0) with false by (symmetry; apply Z.ltb_ge; lia).
  replace (i <? len data) with false by (symmetry; apply Z.ltb_ge; lia).
  rewrite andb_false_r. reflexivity.
Qed.

(** A slice that starts behind [pre] holds the bytes that are there, up to
    the length asked for. *)
Lemma py_slice_firstn (pre tail : bytes) (n : Z) :
  0 <= n ->
  py_slice (pre ++ tail) (len pre) (len pre + n) = firstn (Z.to_nat n) tail.
Proof.
  intros Hn. pose proof (len_nonneg pre) as Np. pose proof (len_nonneg tail) as Nt.
  unfold py_slice, clamp_bound. rewrite len_app.
  replace (len pre <? 0) with false by (symmetry; apply Z.ltb_ge; lia).
  replace (len pre + n <? 0) with false by (symmetry; apply Z.ltb_ge; lia).
  rewrite (Z.min_l (len pre)) by lia.
  replace (Z.to_nat (len pre)) with (List.length pre) by (unfold len; lia).
  rewrite skipn_app, skipn_all, Nat.sub_diag.
  cbn [skipn app].
  destruct (Z.le_ge_cases n (len tail)) as [L|L].
  - rewrite Z.min_l by lia. f_equal. lia.
  - rewrite Z.min_r by lia.
    replace (Z.to_nat (len pre + len tail - len pre)) with (List.length tail)
      by (unfold len; lia).
    rewrite firstn_all. symmetry. apply firstn_all2. unfold len in L. lia.
Qed.

(** ** Any budget that covers the bytes left gives the same outcome *)

Lemma decode_enough (n m : nat) (self : Bdecode) :
  0 <= _index self ->
  finishes (decode n self) ->
  (2 * remaining self + 1 <= m)%nat ->
  decode m self = decode n self.
Proof.
  intros H0 F Hm.
  destruct (Nat.le_ge_cases n m) as [L|L].
  - apply (proj1 (decode_more_fuel_all n)); trivial.
  - symmetry. apply (proj1 (decode_more_fuel_all m)); trivial.
    apply (proj1 (decode_finishes_all m)); trivial.
Qed.

Lemma remaining_mid (pre tail : bytes) :
  remaining (mkBdecode (len pre) (pre ++ tail)) = List.length tail.
Proof. unfold remaining. simpl. rewrite len_app. unfold len. lia. Qed.

(** ** The scanning loops *)

Lemma bytes_decode_ascii (c : byte) :
  (Byte.to_N c <? 128)%N = true -> bytes_decode [c] = Some (text_of [c]).
Proof. intros H. unfold bytes_decode. rewrite H. reflexivity. Qed.

Lemma bytes_eqb_one (c stop : byte) :
  bytes_eqb [c] [stop] = Byte.eqb c stop.
Proof. unfold bytes_eqb. apply andb_true_r. Qed.

Lemma append_assoc (a b c : string) : ((a ++ b) ++ c)%string = (a ++ (b ++ c))%string.
Proof. induction a as [|x a IH]; simpl; [reflexivity|]. rewrite IH. reflexivity. Qed.

Lemma append_nil_r (a : string) : (a ++ EmptyString)%string = a.
Proof. induction a as [|x a IH]; simpl; [reflexivity|]. rewrite IH. reflexivity. Qed.

(** [_decodeInt]'s loop, holding a byte [c] it will keep, over bytes [t]
    it will keep too: it comes to fetch the byte behind them with the
    text grown by [c] and [t]. *)
Lemma _decodeInt_loop_scan (t : bytes) :
  forall fuel i c pre rest data,
    data = pre ++ t ++ rest ->
    scannable "e" c = true ->
    forallb (scannable "e") t = true ->
    _decodeInt_loop (S (List.length t + fuel)) i (Some [c]) (mkBdecode (len pre) data)
    = (b <- _getNextByte ;; _decodeInt_loop fuel (i ++ text_of (c :: t))%string b)
        (mkBdecode (len pre + len t) data).
Proof.
  induction t as [|c' t IH]; intros fuel i c pre rest data Hd Hc Ht.
  - cbn [List.length Nat.add _decodeInt_loop].
    unfold scannable in Hc. apply andb_true_iff in Hc. destruct Hc as [Ha He].
    change THE_END with ["e"%byte]. rewrite bytes_eqb_one, He.
    rewrite (bytes_decode_ascii _ Ha). rewrite len_nil, Z.add_0_r. reflexivity.
  - cbn [forallb] in Ht. apply andb_true_iff in Ht. destruct Ht as [Hc' Ht].
    cbn [List.length Nat.add _decodeInt_loop].
    pose proof Hc as Hc0.
    unfold scannable in Hc. apply andb_true_iff in Hc. destruct Hc as [Ha He].
    change THE_END with ["e"%byte]. rewrite bytes_eqb_one, He.
    rewrite (bytes_decode_ascii _ Ha). cbn [negb]. unfold bind at 1.
    rewrite (_getNextByte_mid pre c' (t ++ rest) data) by (rewrite Hd; reflexivity).
    replace (len pre + 1) with (len (pre ++ [c'])) by len_lia.
    etransitivity;
      [apply (IH fuel _ c' (pre ++ [c']) rest data);
       [rewrite Hd, <- app_assoc; reflexivity|exact Hc'|exact Ht]|].
    replace (len (pre ++ [c']) + len t) with (len pre + len (c' :: t)) by len_lia.
    cbn [text_of]. rewrite append_assoc. reflexivity.
Qed.

Lemma _getStrLength_loop_scan (t : bytes) :
  forall fuel l c pre rest data,
    data = pre ++ t ++ rest ->
    scannable ":" c = true ->
    forallb (scannable ":") t = true ->
    _getStrLength_loop (S (List.length t + fuel)) l (Some [c]) (mkBdecode (len pre) data)
    = (b <- _getNextByte ;; _getStrLength_loop fuel (l ++ text_of (c :: t))%string b)
        (mkBdecode (len pre + len t) data).
Proof.
  induction t as [|c' t IH]; intros fuel l c pre rest data Hd Hc Ht.
  - cbn [List.length Nat.add _getStrLength_loop].
    unfold scannable in Hc. apply andb_true_iff in Hc. destruct Hc as [Ha He].
    change STRING_SEP with [":"%byte]. rewrite bytes_eqb_one, He.
    rewrite (bytes_decode_ascii _ Ha). rewrite len_nil, Z.add_0_r. reflexivity.
  - cbn [forallb] in Ht. apply andb_true_iff in Ht. destruct Ht as [Hc' Ht].
    cbn [List.length Nat.add _getStrLength_loop].
    pose proof Hc as Hc0.
    unfold scannable in Hc. apply andb_true_iff in Hc. destruct Hc as [Ha He].
    change STRING_SEP with [":"%byte]. rewrite bytes_eqb_one, He.
    rewrite (bytes_decode_ascii _ Ha). cbn [negb]. unfold bind at 1.
    rewrite (_getNextByte_mid pre c' (t ++ rest) data) by (rewrite Hd; reflexivity).
    replace (len pre + 1) with (len (pre ++ [c'])) by len_lia.
    etransitivity;
      [apply (IH fuel _ c' (pre ++ [c']) rest data);
       [rewrite Hd, <- app_assoc; reflexivity|exact Hc'|exact Ht]|].
    replace (len (pre ++ [c']) + len t) with (len pre + len (c' :: t)) by len_lia.
    cbn [text_of]. rewrite append_assoc. reflexivity.
Qed.

Lemma _getNextByte_mid' (pre : bytes) (c : byte) (rest data : bytes) (i : Z) :
  data = pre ++ c :: rest -> i = len pre ->
  _getNextByte (mkBdecode i data) = Returns (Some [c]) (mkBdecode (i + 1) data).
Proof. intros Hd ->. apply (_getNextByte_mid pre c rest data Hd). Qed.

Lemma decode_mid (fuel : nat) (pre : bytes) (c : byte) (rest data : bytes) :
  data = pre ++ c :: rest ->
  decode (S fuel) (mkBdecode (len pre) data)
  = (if bytes_eqb [c] INT then _decodeInt fuel
     else if bytes_eqb [c] LIST then _decodeList_loop fuel []
     else if bytes_eqb [c] DICT then _decodeDict_loop fuel []
     else if bytes_eqb [c] THE_END then ret VNone
     else if bytes_in [c] (bytes_of "0123456789") then
       length <- _getStrLength fuel (Some [c]) ;; _decodeStr length
     else raise ValueError_format) (mkBdecode (len pre + 1) data).
Proof.
  intros ->. apply decode_at; [apply len_nonneg|apply nth_error_mid].
Qed.

(** ** The integer form *)

(** Behind an [i] and bytes [body] that the loop keeps, [decode] comes to
    fetch the next byte with [body] as its text. *)
Lemma decode_int_scan (body : bytes) (fuel : nat) (pre rest data : bytes) :
  data = pre ++ "i"%byte :: body ++ rest ->
  forallb (scannable "e") body = true ->
  decode (S (List.length body + fuel)) (mkBdecode (len pre) data)
  = (b <- _getNextByte ;; _decodeInt_loop fuel (text_of body) b)
      (mkBdecode (len pre + 1 + len body) data).
Proof.
  intros Hd Hb. rewrite (decode_mid _ pre "i" (body ++ rest) data Hd).
  replace (bytes_eqb ["i"%byte] INT) with true by reflexivity.
  destruct body as [|c t].
  - rewrite len_nil, Z.add_0_r. reflexivity.
  - cbn [forallb] in Hb. apply andb_true_iff in Hb. destruct Hb as [Hc Ht].
    unfold _decodeInt, bind at 1.
    rewrite (_getNextByte_mid' (pre ++ ["i"%byte]) c (t ++ rest) data)
      by (try rewrite Hd; try rewrite <- app_assoc; try reflexivity; len_lia).
    cbn [List.length Nat.add].
    replace (len pre + 1 + 1) with (len (pre ++ ["i"%byte; c])) by len_lia.
    etransitivity;
      [apply (_decodeInt_loop_scan t fuel EmptyString c (pre ++ ["i"%byte; c]) rest data);
       [rewrite Hd, <- app_assoc; reflexivity|exact Hc|exact Ht]|].
    replace (len (pre ++ ["i"%byte; c]) + len t) with (len pre + 1 + len (c :: t))
      by len_lia.
    reflexivity.
Qed.

Lemma decode_int_mid (body : bytes) (fuel : nat) (pre rest data : bytes) :
  data = pre ++ "i"%byte :: body ++ "e"%byte :: rest ->
  forallb (scannable "e") body = true ->
  (List.length body + 2 <= fuel)%nat ->
  decode fuel (mkBdecode (len pre) data)
  = int_outcome (text_of body) (mkBdecode (len pre + len body + 2) data).
Proof.
  intros Hd Hb Hf.
  replace fuel with (S (List.length body + S (fuel - List.length body - 2))) by lia.
  rewrite (decode_int_scan body _ pre ("e"%byte :: rest) data Hd Hb).
  unfold bind.
  rewrite (_getNextByte_mid' (pre ++ "i"%byte :: body) "e" rest data)
    by (try rewrite Hd; try rewrite <- app_assoc; try reflexivity; len_lia).
  cbn [_decodeInt_loop].
  replace (negb (bytes_eqb ["e"%byte] THE_END)) with false by reflexivity.
  replace (len pre + 1 + len body + 1) with (len pre + len body + 2) by lia.
  reflexivity.
Qed.

Lemma decode_int_unterminated (body : bytes) (fuel : nat) (pre data : bytes) :
  data = pre ++ "i"%byte :: body ->
  forallb (scannable "e") body = true ->
  (List.length body + 2 <= fuel)%nat ->
  decode fuel (mkBdecode (len pre) data)
  = Raises AttributeError (mkBdecode (len data) data).
Proof.
  intros Hd Hb Hf.
  replace fuel with (S (List.length body + S (fuel - List.length body - 2))) by lia.
  rewrite (decode_int_scan body _ pre [] data) by (try rewrite app_nil_r; assumption).
  unfold bind. rewrite _getNextByte_end by (subst data; len_lia).
  cbn [_decodeInt_loop]. unfold raise. f_equal. f_equal. subst data. len_lia.
Qed.

Lemma decode_int_not_ascii (body : bytes) (c : byte) (fuel : nat) (pre rest data : bytes) :
  data = pre ++ "i"%byte :: body ++ c :: rest ->
  forallb (scannable "e") body = true ->
  (Byte.to_N c <? 128)%N = false ->
  (List.length body + 2 <= fuel)%nat ->
  decode fuel (mkBdecode (len pre) data)
  = Raises (UnicodeDecodeError [c]) (mkBdecode (len pre + len body + 2) data).
Proof.
  intros Hd Hb Hc Hf.
  replace fuel with (S (List.length body + S (fuel - List.length body - 2))) by lia.
  rewrite (decode_int_scan body _ pre (c :: rest) data Hd Hb).
  unfold bind.
  rewrite (_getNextByte_mid' (pre ++ "i"%byte :: body) c rest data)
    by (try rewrite Hd; try rewrite <- app_assoc; try reflexivity; len_lia).
  cbn [_decodeInt_loop].
  assert (He : bytes_eqb [c] THE_END = false).
  { change THE_END with ["e"%byte]. rewrite bytes_eqb_one.
    destruct (Byte.eqb c "e") eqn:E; trivial.
    apply byte_dec_bl in E. subst c. discriminate Hc. }
  rewrite He. cbn [negb]. unfold bytes_decode. rewrite Hc.
  replace (len pre + 1 + len body + 1) with (len pre + len body + 2) by lia.
  reflexivity.
Qed.

(** ** The byte-string form *)

(** Behind a first digit [c] and bytes [t] that the loop keeps, [decode]
    comes to fetch the next byte of the length with [c] and [t] as its
    text. *)
Lemma decode_str_scan (c : byte) (t : bytes) (fuel : nat) (pre rest data : bytes) :
  data = pre ++ c :: t ++ rest ->
  is_digit_byte c = true ->
  forallb (scannable ":") t = true ->
  decode (S (S (List.length t + fuel))) (mkBdecode (len pre) data)
  = (length <- (b <- _getNextByte ;;
                _getStrLength_loop fuel (text_of (c :: t)) b) ;;
     _decodeStr length)
      (mkBdecode (len pre + 1 + len t) data).
Proof.
  intros Hd Hc Ht. rewrite (decode_mid _ pre c (t ++ rest) data Hd).
  destruct (is_digit_byte_facts c Hc) as (_ & Hs & -> & -> & -> & -> & -> & _).
  unfold _getStrLength, bind at 1.
  replace (len pre + 1) with (len (pre ++ [c])) by len_lia.
  match goal with
  | |- match ?x with _ => _ end = _ =>
      replace x with
        ((b <- _getNextByte ;; _getStrLength_loop fuel (text_of (c :: t)) b)
           (mkBdecode (len (pre ++ [c]) + len t) data))
  end.
  - replace (len (pre ++ [c]) + len t) with (len pre + 1 + len t) by len_lia.
    reflexivity.
  - symmetry.
    apply (_getStrLength_loop_scan t fuel EmptyString c (pre ++ [c]) rest data);
      [rewrite Hd, <- app_assoc; reflexivity|exact Hs|exact Ht].
Qed.

Lemma decode_str_mid (c : byte) (t : bytes) (fuel : nat) (pre tail data : bytes) :
  data = pre ++ c :: t ++ ":"%byte :: tail ->
  is_digit_byte c = true ->
  forallb (scannable ":") t = true ->
  (List.length t + 3 <= fuel)%nat ->
  decode fuel (mkBdecode (len pre) data)
  = str_outcome (text_of (c :: t)) tail (mkBdecode (len pre + len t + 2) data).
Proof.
  intros Hd Hc Ht Hf.
  replace fuel with (S (S (List.length t + S (fuel - List.length t - 3)))) by lia.
  rewrite (decode_str_scan c t _ pre (":"%byte :: tail) data Hd Hc Ht).
  unfold bind.
  rewrite (_getNextByte_mid' (pre ++ c :: t) ":" tail data)
    by (try rewrite Hd; try rewrite <- app_assoc; try reflexivity; len_lia).
  cbn [_getStrLength_loop].
  replace (negb (bytes_eqb [":"%byte] STRING_SEP)) with false by reflexivity.
  replace (len pre + 1 + len t + 1) with (len pre + len t + 2) by lia.
  unfold str_outcome.
  destruct (py_int (text_of (c :: t))) as [n|] eqn:En; [|reflexivity].
  assert (Hn : 0 <= n).
  { apply (py_int_digit_led (text_of (c :: t))); [|exact En].
    apply (is_digit_byte_facts c Hc). }
  unfold ret, _decodeStr, set_index. cbn [_index _data].
  f_equal. f_equal.
  replace (len pre + len t + 2) with (len (pre ++ c :: t ++ [":"%byte])) by len_lia.
  rewrite Hd.
  replace (pre ++ c :: t ++ ":"%byte :: tail)
    with ((pre ++ c :: t ++ [":"%byte]) ++ tail)
    by (rewrite <- app_assoc; cbn [app]; rewrite <- app_assoc; reflexivity).
  apply py_slice_firstn, Hn.
Qed.

Lemma decode_str_unterminated (c : byte) (t : bytes) (fuel : nat) (pre data : bytes) :
  data = pre ++ c :: t ->
  is_digit_byte c = true ->
  forallb (scannable ":") t = true ->
  (List.length t + 3 <= fuel)%nat ->
  decode fuel (mkBdecode (len pre) data)
  = Raises AttributeError (mkBdecode (len data) data).
Proof.
  intros Hd Hc Ht Hf.
  replace fuel with (S (S (List.length t + S (fuel - List.length t - 3)))) by lia.
  rewrite (decode_str_scan c t _ pre [] data) by (try rewrite app_nil_r; assumption).
  unfold bind. rewrite _getNextByte_end by (subst data; len_lia).
  cbn [_getStrLength_loop]. unfold raise. f_equal. f_equal. subst data. len_lia.
Qed.

(** ** Bencoded objects *)

Lemma value_ind_nested (P : value -> Prop)
    (HN : P VNone) (HI : forall z, P (VInt z)) (HB : forall x, P (VBytes x))
    (HL : forall l, Forall P l -> P (VList l))
    (HD : forall d, Forall (fun kv => P (snd kv)) d -> P (VDict d)) :
  forall v, P v.
Proof.
  fix IH 1. intros [|z|x|l|d].
  - exact HN.
  - apply HI.
  - apply HB.
  - apply HL. induction l as [|a l IHl]; constructor; [apply IH|exact IHl].
  - apply HD. induction d as [|[k a] d IHd]; constructor; [apply IH|exact IHd].
Qed.

Lemma decimal_head (n : Z) :
  exists c t, decimal n = c :: t /\ is_digit_byte c = true
              /\ forallb is_digit_byte t = true.
Proof.
  pose proof (decimal_all_digits n) as H. pose proof (decimal_not_nil n) as N.
  destruct (decimal n) as [|c t]; [contradiction|].
  cbn [forallb] in H. apply andb_true_iff in H. exists c, t. tauto.
Qed.

(** A plain object is written with a first byte that is no terminator. *)
Lemma bencode_plain_head (v : value) :
  plain v = true -> exists c t, bencode v = c :: t /\ c <> "e"%byte.
Proof.
  destruct v as [|z|x|l|d]; try discriminate; intros _; cbn [bencode].
  - eexists _, _. split; [reflexivity|discriminate].
  - destruct (decimal_head (len x)) as (c & t & -> & Hc & _).
    eexists _, _. split; [reflexivity|]. intros ->. discriminate Hc.
  - eexists _, _. split; [reflexivity|discriminate].
Qed.

Lemma decode_Returns_enough (n m : nat) (self self' : Bdecode) (v : value) :
  0 <= _index self ->
  decode n self = Returns v self' ->
  (2 * remaining self + 1 <= m)%nat ->
  decode m self = Returns v self'.
Proof.
  intros H0 E Hm. rewrite (decode_enough n m self H0); [exact E| |exact Hm].
  rewrite E. exact I.
Qed.

Lemma remaining_le_length (pre tail data : bytes) :
  data = pre ++ tail ->
  (remaining (mkBdecode (len pre) data) <= List.length data)%nat.
Proof. intros ->. rewrite remaining_mid, length_app. lia. Qed.

(** The loop of [_decodeList] over the bencodings of [items]: it appends
    them to its list and stands behind them. *)
Lemma _decodeList_loop_items (items : list value) :
  Forall decodes_back items ->
  forallb plain items = true ->
  forall acc pre rest data fuel,
    data = pre ++ flat_map bencode items ++ rest ->
    (2 * List.length data + 1 <= fuel)%nat ->
    _decodeList_loop (List.length items + fuel) acc (mkBdecode (len pre) data)
    = _decodeList_loop fuel (acc ++ items)
        (mkBdecode (len pre + len (flat_map bencode items)) data).
Proof.
  induction 1 as [|x xs Hx Hxs IH]; intros Hp acc pre rest data fuel Hd Hf.
  - cbn [flat_map List.length Nat.add]. rewrite app_nil_r, len_nil, Z.add_0_r.
    reflexivity.
  - cbn [forallb] in Hp. apply andb_true_iff in Hp. destruct Hp as [Hpx Hpxs].
    destruct (bencode_plain_head x Hpx) as (c & t & Hb & Hc).
    cbn [flat_map] in Hd. rewrite <- app_assoc in Hd.
    cbn [List.length Nat.add].
    rewrite (_decodeList_loop_at_item _ acc data (len pre) c);
      [|apply len_nonneg|rewrite Hd, Hb; apply nth_error_mid|exact Hc].
    unfold bind.
    rewrite (Hx pre (flat_map bencode xs ++ rest) data _ Hd) by lia.
    replace (len pre + len (bencode x)) with (len (pre ++ bencode x)) by len_lia.
    rewrite (IH Hpxs (acc ++ [x]) (pre ++ bencode x) rest data fuel);
      [|rewrite Hd, <- app_assoc; reflexivity|exact Hf].
    rewrite <- app_assoc. cbn [flat_map app]. f_equal. f_equal. len_lia.
Qed.

(** Integers, byte strings and lists of them decode back from their
    bencoding, wherever it stands in the buffer. *)
Lemma decode_bencode_plain (v : value) : plain v = true -> decodes_back v.
Proof.
  induction v as [|z|x|items IH|d IH] using value_ind_nested;
    intros Hp; try discriminate Hp; intros pre rest data fuel Hd Hf.
  - (* an integer *)
    cbn [bencode app] in Hd |- *. rewrite <- app_assoc in Hd. cbn [app] in Hd.
    rewrite (decode_int_mid (decimal_Z z) fuel pre rest data Hd).
    + unfold int_outcome. rewrite py_int_decimal_Z. unfold ret.
      f_equal. f_equal. len_lia.
    + apply decimal_Z_scannable; [reflexivity|discriminate].
    + subst data. rewrite length_app in Hf. cbn [List.length] in Hf.
      rewrite length_app in Hf. lia.
  - (* a byte string *)
    cbn [bencode] in Hd |- *. rewrite <- app_assoc in Hd. cbn [app] in Hd.
    pose proof (py_int_decimal (len x) (len_nonneg x)) as Hi.
    destruct (decimal_head (len x)) as (c & t & Ht & Hc & Hts).
    rewrite Ht in Hd, Hi |- *. cbn [app] in Hd.
    rewrite (decode_str_mid c t fuel pre (x ++ rest) data Hd Hc).
    + unfold str_outcome. rewrite Hi. unfold set_index. cbn [_index _data].
      f_equal.
      * f_equal. unfold len. rewrite Nat2Z.id. rewrite firstn_app, firstn_all.
        rewrite Nat.sub_diag. cbn [firstn]. apply app_nil_r.
      * f_equal. len_lia.
    + apply digits_scannable; [reflexivity|exact Hts].
    + subst data. rewrite length_app in Hf. cbn [List.length] in Hf.
      rewrite length_app in Hf. lia.
  - (* a list *)
    cbn [plain] in Hp. cbn [bencode app] in Hd |- *.
    assert (HF : Forall decodes_back items).
    { clear - IH Hp. induction IH as [|x xs Hx _ IHxs]; constructor.
      - cbn [forallb] in Hp. apply andb_true_iff in Hp. apply Hx. tauto.
      - cbn [forallb] in Hp. apply andb_true_iff in Hp. apply IHxs. tauto. }
    rewrite <- app_assoc in Hd. cbn [app] in Hd.
    apply (decode_Returns_enough
             (S (List.length items + S (2 * List.length data + 1))) fuel);
      [apply len_nonneg| |].
    + rewrite (decode_mid _ pre "l" (flat_map bencode items ++ "e"%byte :: rest) data Hd).
      replace (bytes_eqb ["l"%byte] INT) with false by reflexivity.
      replace (bytes_eqb ["l"%byte] LIST) with true by reflexivity.
      replace (len pre + 1) with (len (pre ++ ["l"%byte])) by len_lia.
      rewrite (_decodeList_loop_items items HF Hp [] (pre ++ ["l"%byte])
                 ("e"%byte :: rest) data);
        [|rewrite Hd, <- app_assoc; reflexivity|lia].
      rewrite _decodeList_loop_at_end.
      * cbn [app]. f_equal. f_equal. len_lia.
      * pose proof (len_nonneg (pre ++ ["l"%byte])).
        pose proof (len_nonneg (flat_map bencode items)). lia.
      * replace (len (pre ++ ["l"%byte]) + len (flat_map bencode items))
          with (len (pre ++ "l"%byte :: flat_map bencode items)) by len_lia.
        rewrite Hd.
        replace (pre ++ "l"%byte :: flat_map bencode items ++ "e"%byte :: rest)
          with ((pre ++ "l"%byte :: flat_map bencode items) ++ "e"%byte :: rest)
          by (rewrite <- app_assoc; reflexivity).
        apply nth_error_mid.
    + pose proof (remaining_le_length pre _ data Hd). lia.
Qed.

(** ** Dictionaries of plain entries *)

Lemma setitem_absent (k : key) (v : value) (d : list (key * value)) :
  ~ In k (keys d) -> setitem k v d = d ++ [(k, v)].
Proof.
  induction d as [|[k' v'] d IH]; simpl; trivial.
  intros H. destruct (key_eqb k k') eqn:E.
  - apply key_eqb_eq in E. subst. tauto.
  - rewrite IH by tauto. reflexivity.
Qed.

(** Entries with distinct keys are stored as they come. *)
Lemma setitems_NoDup (entries : list (key * value)) :
  forall acc, NoDup (keys (acc ++ entries)) -> setitems entries acc = acc ++ entries.
Proof.
  induction entries as [|[k v] es IH]; intros acc H; cbn [setitems fold_left].
  - symmetry. apply app_nil_r.
  - fold (setitems es (setitem k v acc)). cbn [fst snd].
    assert (Hk : ~ In k (keys acc)).
    { unfold keys in H |- *. rewrite map_app in H. cbn [map fst] in H.
      apply NoDup_remove_2 in H. intros Hin. apply H, in_or_app. tauto. }
    rewrite (setitem_absent k v acc Hk).
    rewrite IH; rewrite <- app_assoc; [reflexivity|exact H].
Qed.

Lemma bencode_key_value (k : key) :
  key_eqb k KNone = false ->
  bencode_key k = bencode (value_of_key k)
  /\ plain (value_of_key k) = true
  /\ hash_key (value_of_key k) = Some k.
Proof. destruct k; intros H; try discriminate H; repeat split. Qed.

Lemma py_slice_mid (pre : bytes) (c : byte) (rest : bytes) :
  py_slice (pre ++ c :: rest) (len pre) (len pre + 1) = [c].
Proof. apply py_slice_at; [apply len_nonneg|apply nth_error_mid]. Qed.

(** The loop of [_decodeDict] over the bencodings of [entries]: it stores
    them in turn and stands behind them. *)
Lemma _decodeDict_loop_entries (entries : list (key * value)) :
  forallb plain_entry entries = true ->
  forall acc pre rest data fuel,
    data = pre ++ bencode_entries entries ++ rest ->
    (2 * List.length data + 1 <= fuel)%nat ->
    _decodeDict_loop (List.length entries + fuel) acc (mkBdecode (len pre) data)
    = _decodeDict_loop fuel (setitems entries acc)
        (mkBdecode (len pre + len (bencode_entries entries)) data).
Proof.
  induction entries as [|[k v] es IH]; intros Hp acc pre rest data fuel Hd Hf.
  - cbn [bencode_entries flat_map List.length Nat.add setitems fold_left].
    rewrite len_nil, Z.add_0_r. reflexivity.
  - cbn [forallb] in Hp. apply andb_true_iff in Hp. destruct Hp as [Hkv Hes].
    unfold plain_entry in Hkv. cbn [fst snd] in Hkv.
    apply andb_true_iff in Hkv. destruct Hkv as [Hk Hv].
    apply negb_true_iff in Hk.
    destruct (bencode_key_value k Hk) as (Ek & Pk & Hh).
    destruct (bencode_plain_head _ Pk) as (c & t & Hb & Hc).
    unfold bencode_entries in Hd |- *. cbn [flat_map fst snd] in Hd |- *.
    fold (bencode_entries es) in Hd |- *.
    rewrite <- !app_assoc in Hd. rewrite Ek in Hd |- *.
    cbn [List.length Nat.add _decodeDict_loop]. cbn [_index _data].
    assert (Et : bytes_eqb (py_slice data (len pre) (len pre + 1)) THE_END = false).
    { rewrite Hd, Hb. cbn [app]. rewrite py_slice_mid.
      change THE_END with ["e"%byte]. rewrite bytes_eqb_one.
      destruct (Byte.eqb c "e") eqn:E; trivial. apply byte_dec_bl in E. contradiction. }
    rewrite Et. cbn [negb]. unfold bind.
    rewrite (decode_bencode_plain _ Pk pre _ data _ Hd) by lia.
    replace (len pre + len (bencode (value_of_key k)))
      with (len (pre ++ bencode (value_of_key k))) by len_lia.
    rewrite (decode_bencode_plain _ Hv (pre ++ bencode (value_of_key k))
               (bencode_entries es ++ rest) data);
      [|rewrite Hd, <- app_assoc; reflexivity|lia].
    rewrite Hh.
    replace (len (pre ++ bencode (value_of_key k)) + len (bencode v))
      with (len (pre ++ bencode (value_of_key k) ++ bencode v)) by len_lia.
    rewrite (IH Hes (setitem k v acc) (pre ++ bencode (value_of_key k) ++ bencode v)
               rest data fuel);
      [|rewrite Hd, <- !app_assoc; reflexivity|exact Hf].
    cbn [setitems fold_left fst snd]. f_equal. f_equal. len_lia.
Qed.

Lemma _decodeDict_loop_at_end (fuel : nat) (d : list (key * value))
    (pre rest data : bytes) :
  data = pre ++ "e"%byte :: rest ->
  _decodeDict_loop (S fuel) d (mkBdecode (len pre) data)
  = Returns (VDict d) (mkBdecode (len pre) data).
Proof.
  intros ->. cbn [_decodeDict_loop]. cbn [_index _data]. rewrite py_slice_mid.
  reflexivity.
Qed.

(** A dictionary of plain entries, wherever it stands in the buffer:
    [decode] returns the entries as [d[k] = v] stores them, and the cursor
    is left on the terminator. *)
Lemma decode_dict_mid (entries : list (key * value)) (pre rest data : bytes) (fuel : nat) :
  forallb plain_entry entries = true ->
  data = pre ++ "d"%byte :: bencode_entries entries ++ "e"%byte :: rest ->
  (2 * List.length data + 1 <= fuel)%nat ->
  decode fuel (mkBdecode (len pre) data)
  = Returns (VDict (setitems entries []))
      (mkBdecode (len pre + 1 + len (bencode_entries entries)) data).
Proof.
  intros Hp Hd Hf.
  apply (decode_Returns_enough
           (S (List.length entries + S (2 * List.length data + 1))) fuel);
    [apply len_nonneg| |].
  - rewrite (decode_mid _ pre "d" (bencode_entries entries ++ "e"%byte :: rest) data Hd).
    replace (bytes_eqb ["d"%byte] INT) with false by reflexivity.
    replace (bytes_eqb ["d"%byte] LIST) with false by reflexivity.
    replace (bytes_eqb ["d"%byte] DICT) with true by reflexivity.
    replace (len pre + 1) with (len (pre ++ ["d"%byte])) by len_lia.
    rewrite (_decodeDict_loop_entries entries Hp [] (pre ++ ["d"%byte])
               ("e"%byte :: rest) data);
      [|rewrite Hd, <- app_assoc; reflexivity|lia].
    replace (len (pre ++ ["d"%byte]) + len (bencode_entries entries))
      with (len (pre ++ "d"%byte :: bencode_entries entries)) by len_lia.
    rewrite (_decodeDict_loop_at_end _ _ (pre ++ "d"%byte :: bencode_entries entries) rest)
      by (rewrite Hd, <- app_assoc; reflexivity).
    reflexivity.
  - pose proof (remaining_le_length pre _ data Hd). lia.
Qed.

(** ** Input that stops short *)

Lemma decode_end (fuel : nat) (data : bytes) (i : Z) :
  len data <= i ->
  decode (S fuel) (mkBdecode i data) = Raises EOFError (mkBdecode i data).
Proof.
  intros H. cbn [decode]. unfold bind. rewrite (_getNextByte_end data i H).
  reflexivity.
Qed.

Lemma decode_list_unterminated (items : list value) (pre data : bytes) (fuel : nat) :
  forallb plain items = true ->
  data = pre ++ "l"%byte :: flat_map bencode items ->
  (2 * List.length data + 1 <= fuel)%nat ->
  decode fuel (mkBdecode (len pre) data)
  = Raises IndexError (mkBdecode (len data) data).
Proof.
  intros Hp Hd Hf.
  assert (HF : Forall decodes_back items).
  { clear - Hp. induction items as [|x xs IH]; constructor.
    - cbn [forallb] in Hp. apply andb_true_iff in Hp.
      apply decode_bencode_plain. tauto.
    - cbn [forallb] in Hp. apply andb_true_iff in Hp. apply IH. tauto. }
  assert (E : decode (S (List.length items + S (2 * List.length data + 1)))
                (mkBdecode (len pre) data)
              = Raises IndexError (mkBdecode (len data) data)).
  { rewrite (decode_mid _ pre "l" (flat_map bencode items) data Hd).
    replace (bytes_eqb ["l"%byte] INT) with false by reflexivity.
    replace (bytes_eqb ["l"%byte] LIST) with true by reflexivity.
    replace (len pre + 1) with (len (pre ++ ["l"%byte])) by len_lia.
    rewrite (_decodeList_loop_items items HF Hp [] (pre ++ ["l"%byte]) [] data);
      [|rewrite Hd, <- app_assoc, app_nil_r; reflexivity|lia].
    cbn [_decodeList_loop]. cbn [_index _data].
    rewrite py_index_end by (subst data; len_lia).
    f_equal. f_equal. subst data. len_lia. }
  rewrite (decode_enough (S (List.length items + S (2 * List.length data + 1))) fuel
             (mkBdecode (len pre) data)).
  - exact E.
  - apply len_nonneg.
  - rewrite E. exact I.
  - pose proof (remaining_le_length pre _ data Hd). lia.
Qed.

Lemma decode_dict_unterminated (entries : list (key * value)) (pre data : bytes)
    (fuel : nat) :
  forallb plain_entry entries = true ->
  data = pre ++ "d"%byte :: bencode_entries entries ->
  (2 * List.length data + 1 <= fuel)%nat ->
  decode fuel (mkBdecode (len pre) data)
  = Raises EOFError (mkBdecode (len data) data).
Proof.
  intros Hp Hd Hf.
  assert (E : decode (S (List.length entries + S (S (2 * List.length data + 1))))
                (mkBdecode (len pre) data)
              = Raises EOFError (mkBdecode (len data) data)).
  { rewrite (decode_mid _ pre "d" (bencode_entries entries) data Hd).
    replace (bytes_eqb ["d"%byte] INT) with false by reflexivity.
    replace (bytes_eqb ["d"%byte] LIST) with false by reflexivity.
    replace (bytes_eqb ["d"%byte] DICT) with true by reflexivity.
    replace (len pre + 1) with (len (pre ++ ["d"%byte])) by len_lia.
    rewrite (_decodeDict_loop_entries entries Hp [] (pre ++ ["d"%byte]) [] data);
      [|rewrite Hd, <- app_assoc, app_nil_r; reflexivity|lia].
    replace (len (pre ++ ["d"%byte]) + len (bencode_entries entries))
      with (len data) by (subst data; len_lia).
    cbn [_decodeDict_loop]. cbn [_index _data].
    rewrite py_slice_end by lia.
    replace (negb (bytes_eqb [] THE_END)) with true by reflexivity.
    unfold bind. rewrite decode_end by lia. reflexivity. }
  rewrite (decode_enough (S (List.length entries + S (S (2 * List.length data + 1)))) fuel
             (mkBdecode (len pre) data)).
  - exact E.
  - apply len_nonneg.
  - rewrite E. exact I.
  - pose proof (remaining_le_length pre _ data Hd). lia.
Qed.

(** ** A list that holds a dictionary *)

Lemma decode_list_with_dict (items : list value) (entries : list (key * value))
    (pre rest data : bytes) (fuel : nat) :
  forallb plain items = true ->
  forallb plain_entry entries = true ->
  data = pre ++ "l"%byte :: flat_map bencode items
             ++ "d"%byte :: bencode_entries entries ++ "e"%byte :: rest ->
  (2 * List.length data + 1 <= fuel)%nat ->
  decode fuel (mkBdecode (len pre) data)
  = Returns (VList (items ++ [VDict (setitems entries [])]))
      (mkBdecode (len pre + len (flat_map bencode items)
                  + len (bencode_entries entries) + 3) data).
Proof.
  intros Hp He Hd Hf.
  assert (HF : Forall decodes_back items).
  { clear - Hp. induction items as [|x xs IH]; constructor.
    - cbn [forallb] in Hp. apply andb_true_iff in Hp.
      apply decode_bencode_plain. tauto.
    - cbn [forallb] in Hp. apply andb_true_iff in Hp. apply IH. tauto. }
  apply (decode_Returns_enough
           (S (List.length items + S (S (2 * List.length data + 1)))) fuel);
    [apply len_nonneg| |pose proof (remaining_le_length pre _ data Hd); lia].
  rewrite (decode_mid _ pre "l" _ data Hd).
  replace (bytes_eqb ["l"%byte] INT) with false by reflexivity.
  replace (bytes_eqb ["l"%byte] LIST) with true by reflexivity.
  replace (len pre + 1) with (len (pre ++ ["l"%byte])) by len_lia.
  rewrite (_decodeList_loop_items items HF Hp [] (pre ++ ["l"%byte])
             ("d"%byte :: bencode_entries entries ++ "e"%byte :: rest) data);
    [|rewrite Hd, <- app_assoc; reflexivity|lia].
  set (pre' := pre ++ "l"%byte :: flat_map bencode items).
  assert (Hd' : data = pre' ++ "d"%byte :: bencode_entries entries ++ "e"%byte :: rest).
  { unfold pre'. rewrite Hd, <- app_assoc. reflexivity. }
  replace (len (pre ++ ["l"%byte]) + len (flat_map bencode items)) with (len pre')
    by (unfold pre'; len_lia).
  rewrite (_decodeList_loop_at_item _ _ data (len pre') "d");
    [|apply len_nonneg|rewrite Hd'; apply nth_error_mid|discriminate].
  unfold bind.
  rewrite (decode_dict_mid entries pre' rest data _ He Hd') by lia.
  rewrite _decodeList_loop_at_end.
  - cbn [app]. f_equal. f_equal. unfold pre'. len_lia.
  - pose proof (len_nonneg pre'). pose proof (len_nonneg (bencode_entries entries)). lia.
  - replace (len pre' + 1 + len (bencode_entries entries))
      with (len (pre' ++ "d"%byte :: bencode_entries entries)) by len_lia.
    rewrite Hd'.
    replace (pre' ++ "d"%byte :: bencode_entries entries ++ "e"%byte :: rest)
      with ((pre' ++ "d"%byte :: bencode_entries entries) ++ "e"%byte :: rest)
      by (rewrite <- app_assoc; reflexivity).
    apply nth_error_mid.
Qed.

(** ** Runs from the start of a buffer *)

Lemma run_from_start (contents : bytes) :
  run contents
  = decode (S (2 * List.length contents)) (mkBdecode (len (@nil byte)) contents).
Proof.
  unfold run, budget, __init__. cbn [_index _data]. f_equal.
  unfold len. lia.
Qed.

Lemma at_offset (data : bytes) (i j : Z) :
  i = j -> mkBdecode i data = mkBdecode j data.
Proof. intros ->. reflexivity. Qed.

(** ** Objects inside the limits *)

Lemma modest_plain (v : value) : modest v = true -> plain v = true.
Proof.
  unfold modest. intros H. apply andb_true_iff in H. destruct H as [H _].
  apply andb_true_iff in H. tauto.
Qed.

Lemma modest_items_plain (items : list value) :
  forallb modest items = true -> forallb plain items = true.
Proof.
  induction items as [|x xs IH]; trivial. cbn [forallb]. intros H.
  apply andb_true_iff in H. destruct H as [Hx Hxs].
  rewrite (modest_plain x Hx), (IH Hxs). reflexivity.
Qed.

Lemma modest_entry_plain (kv : key * value) :
  modest_entry kv = true -> plain_entry kv = true.
Proof.
  unfold modest_entry, plain_entry. intros H.
  apply andb_true_iff in H. destruct H as [H Hv].
  apply andb_true_iff in H. destruct H as [Hk _].
  rewrite Hk, (modest_plain _ Hv). reflexivity.
Qed.

Lemma modest_entries_plain (d : list (key * value)) :
  forallb modest_entry d = true -> forallb plain_entry d = true.
Proof.
  induction d as [|x xs IH]; trivial. cbn [forallb]. intros H.
  apply andb_true_iff in H. destruct H as [Hx Hxs].
  rewrite (modest_entry_plain x Hx), (IH Hxs). reflexivity.
Qed.

(** ** C10: a key that comes twice *)

Lemma getitem_seen (k : key) (d : list (key * value)) :
  existsb (key_eqb k) (keys d) = match getitem k d with Some _ => true | None => false end.
Proof.
  induction d as [|[k' v'] d IH]; simpl; trivial.
  destruct (key_eqb k k'); simpl; [reflexivity|exact IH].
Qed.

Lemma setitems_keys (entries : list (key * value)) :
  forall acc, keys (setitems entries acc) = keys acc ++ first_keys (keys acc) (keys entries).
Proof.
  induction entries as [|[k v] es IH]; intros acc.
  - cbn [setitems fold_left keys map first_keys]. symmetry. apply app_nil_r.
  - cbn [setitems fold_left fst snd]. fold (setitems es (setitem k v acc)).
    rewrite IH. cbn [keys map fst first_keys]. fold (keys es).
    rewrite (getitem_seen k acc).
    destruct (getitem k acc) as [v0|] eqn:E.
    + rewrite (setitem_keys_present k v v0 acc E). reflexivity.
    + rewrite (setitem_keys_absent k v acc E). rewrite <- app_assoc. reflexivity.
Qed.

Lemma setitems_getitem (k : key) (entries : list (key * value)) :
  forall acc,
    getitem k (setitems entries acc)
    = match last_value k entries with
      | Some w => Some w
      | None => getitem k acc
      end.
Proof.
  induction entries as [|[k' v] es IH]; intros acc; [reflexivity|].
  cbn [setitems fold_left fst snd last_value]. fold (setitems es (setitem k' v acc)).
  rewrite IH. destruct (last_value k es); trivial.
  destruct (key_eqb k k') eqn:E.
  - apply key_eqb_eq in E. subst k'. apply getitem_setitem_same.
  - apply getitem_setitem_other, E.
Qed.

Lemma setitems_keys_NoDup (entries : list (key * value)) :
  forall acc, NoDup (keys acc) -> NoDup (keys (setitems entries acc)).
Proof.
  induction entries as [|[k v] es IH]; intros acc H; [exact H|].
  cbn [setitems fold_left fst snd]. fold (setitems es (setitem k v acc)).
  apply IH, setitem_NoDup, H.
Qed.

(** C10.  A bencoded dictionary in which keys come more than once (its
    entries inside the limits of the interpreter) decodes without an error,
    whatever follows it.  The mapping [decode()] returns is the one that
    [d[key] = value] builds from the entries in turn: it holds one entry for
    each key, the keys stand in the order in which each came first, and
    each key holds the value of the last entry that had it, the earlier
    values being overwritten. *)
Theorem C10_repeated_key_keeps_place_takes_last
    (entries : list (key * value)) (rest : bytes) :
  forallb modest_entry entries = true ->
  run (bencode (VDict entries) ++ rest)
  = Returns (VDict (setitems entries []))
      {| _index := len (bencode (VDict entries)) - 1;
         _data := bencode (VDict entries) ++ rest |}
  /\ NoDup (keys (setitems entries []))
  /\ keys (setitems entries []) = first_keys [] (keys entries)
  /\ (forall k, getitem k (setitems entries []) = last_value k entries).
Proof.
  intros Hm. pose proof (modest_entries_plain entries Hm) as Hp.
  split; [|split; [|split]].
  - rewrite run_from_start.
    assert (Hd : bencode (VDict entries) ++ rest
                 = [] ++ "d"%byte :: bencode_entries entries ++ "e"%byte :: rest).
    { cbn [bencode app]. fold (bencode_entries entries). rewrite <- app_assoc.
      reflexivity. }
    rewrite (decode_dict_mid entries [] rest _ _ Hp Hd) by (cbn [app]; lia).
    apply f_equal, at_offset. cbn [bencode]. fold (bencode_entries entries). len_lia.
  - apply setitems_keys_NoDup. constructor.
  - apply (setitems_keys entries []).
  - intros k. rewrite setitems_getitem. destruct (last_value k entries); reflexivity.
Qed.

(** C10, at work on [b"d1:ai1e1:bi2e1:ai3ee"], where [a] comes twice: the
    run returns [{a: 3, b: 2}], [a] first and holding the later value. *)
Lemma C10_second_a_replaces_first :
  let a := KBytes (bytes_of "a") in
  let b := KBytes (bytes_of "b") in
  let entries := [(a, VInt 1); (b, VInt 2); (a, VInt 3)] in
  let m := [(a, VInt 3); (b, VInt 2)] in
  forallb modest_entry entries = true
  /\ run (bytes_of "d1:ai1e1:bi2e1:ai3ee")
     = Returns (VDict m) {| _index := 19; _data := bytes_of "d1:ai1e1:bi2e1:ai3ee" |}
  /\ NoDup (keys m)
  /\ keys m = [a; b]
  /\ (forall k, getitem k m = last_value k entries).
Proof.
  intros a b entries m.
  assert (H : forallb modest_entry entries = true) by (vm_compute; reflexivity).
  split; [exact H|].
  exact (C10_repeated_key_keeps_place_takes_last entries [] H).
Defined.

(** * Further properties *)

(** ** Ending *)

(** X1.  On every buffer [decode()] comes to an end, with a value or with
    an exception: none of its loops runs for ever, and two steps (calls and
    loop passes) for each byte of the buffer, and one, are enough. *)
Theorem decode_ends_on_every_buffer (contents : bytes) :
  finishes (decode (S (2 * List.length contents)) (__init__ contents))
  /\ run contents = decode (S (2 * List.length contents)) (__init__ contents).
Proof.
  assert (E : run contents = decode (S (2 * List.length contents)) (__init__ contents)).
  { unfold run, budget, __init__. cbn [_index _data]. f_equal. unfold len. lia. }
  split; [|exact E]. rewrite <- E. apply run_terminates.
Qed.

(** X2.  A call of [decode()] that returns has read at least one byte: the
    cursor is further on than it was, it was inside the buffer, and the
    buffer is the same. *)
Theorem decode_returns_after_reading (self self' : Bdecode) (v : value) :
  0 <= _index self ->
  decode (budget self) self = Returns v self' ->
  _data self' = _data self
  /\ _index self < _index self'
  /\ _index self < len (_data self).
Proof.
  intros H0 E.
  pose proof (proj1 (decode_consumes_all (budget self)) self H0) as C.
  rewrite E in C. simpl in C. destruct C as (D & I & L). repeat split; [exact D|lia|lia].
Qed.

Lemma decode_returns_after_reading_witness :
  let self := {| _index := 2; _data := bytes_of "i1i22e" |} in
  let self' := {| _index := 6; _data := bytes_of "i1i22e" |} in
  (0 <= _index self /\ decode (budget self) self = Returns (VInt 22) self')
  /\ _data self' = _data self
  /\ _index self < _index self'
  /\ _index self < len (_data self).
Proof.
  intros self self'.
  assert (H0 : 0 <= _index self) by (simpl; lia).
  assert (E : decode (budget self) self = Returns (VInt 22) self')
    by (vm_compute; reflexivity).
  split; [auto|]. exact (decode_returns_after_reading self self' (VInt 22) H0 E).
Defined.

(** ** Errors *)

(** X3.  Called with the cursor at the end of the buffer, or behind it,
    [decode()] raises [EOFError] and leaves the cursor where it is. *)
Theorem decode_at_end_raises_EOFError (self : Bdecode) :
  len (_data self) <= _index self ->
  decode (budget self) self = Raises EOFError self.
Proof.
  intros H. destruct self as [i data]. unfold budget. apply decode_end, H.
Qed.

Lemma decode_at_end_raises_EOFError_witness :
  let self := {| _index := 7; _data := bytes_of "5:ab" |} in
  len (_data self) <= _index self
  /\ decode (budget self) self = Raises EOFError self.
Proof.
  intros self.
  assert (H : len (_data self) <= _index self) by (vm_compute; discriminate).
  split; [exact H|]. exact (decode_at_end_raises_EOFError self H).
Defined.



(** ** The integer form *)

(** X5.  Behind an [i], the ASCII bytes up to the first [e] are the text
    that [decode()] hands to [int]: the run returns that integer, or raises
    the [ValueError] of [int] with that text, and the cursor is left behind
    the [e].  Whatever [int] takes is taken: signs, leading zeros, blanks
    around the digits, single underscores between them. *)
Theorem integer_form_is_int_of_text (body rest : bytes) :
  forallb (scannable "e") body = true ->
  run ("i"%byte :: body ++ "e"%byte :: rest)
  = int_outcome (text_of body)
      {| _index := len body + 2; _data := "i"%byte :: body ++ "e"%byte :: rest |}.
Proof.
  intros H. rewrite run_from_start.
  rewrite (decode_int_mid body _ [] rest _ eq_refl H).
  - apply f_equal, at_offset. len_lia.
  - cbn [List.length]. rewrite length_app. lia.
Qed.

Lemma integer_form_is_int_of_text_witness :
  forallb (scannable "e") (bytes_of " +4_2 ") = true
  /\ run (bytes_of "i +4_2 e4:spam")
     = Returns (VInt 42) {| _index := 8; _data := bytes_of "i +4_2 e4:spam" |}.
Proof.
  assert (H : forallb (scannable "e") (bytes_of " +4_2 ") = true) by reflexivity.
  split; [exact H|].
  exact (integer_form_is_int_of_text (bytes_of " +4_2 ") (bytes_of "4:spam") H).
Defined.

(** X6.  An integer with no [e] behind it, up to the end of the buffer,
    makes [decode()] raise [AttributeError] (the loop calls [decode] on the
    [None] that [_getNextByte] returns at the end), not [EOFError]; the
    cursor is left at the end of the buffer. *)
Theorem integer_unterminated_raises_AttributeError (body : bytes) :
  forallb (scannable "e") body = true ->
  run ("i"%byte :: body)
  = Raises AttributeError {| _index := len body + 1; _data := "i"%byte :: body |}.
Proof.
  intros H. rewrite run_from_start.
  rewrite (decode_int_unterminated body _ [] _ eq_refl H).
  - apply f_equal, at_offset. len_lia.
  - cbn [List.length]. lia.
Qed.

Lemma integer_unterminated_raises_AttributeError_witness :
  forallb (scannable "e") (bytes_of "42") = true
  /\ run (bytes_of "i42")
     = Raises AttributeError {| _index := 3; _data := bytes_of "i42" |}.
Proof.
  assert (H : forallb (scannable "e") (bytes_of "42") = true) by reflexivity.
  split; [exact H|].
  exact (integer_unterminated_raises_AttributeError (bytes_of "42") H).
Defined.

(** X7.  A byte from 0x80 up inside an integer makes [decode()] raise
    [UnicodeDecodeError] on that byte, which it has read. *)
Theorem integer_non_ascii_raises_UnicodeDecodeError (body : bytes) (c : byte) (rest : bytes) :
  forallb (scannable "e") body = true ->
  (Byte.to_N c <? 128)%N = false ->
  run ("i"%byte :: body ++ c :: rest)
  = Raises (UnicodeDecodeError [c])
      {| _index := len body + 2; _data := "i"%byte :: body ++ c :: rest |}.
Proof.
  intros H Hc. rewrite run_from_start.
  rewrite (decode_int_not_ascii body c _ [] rest _ eq_refl H Hc).
  - apply f_equal, at_offset. len_lia.
  - cbn [List.length]. rewrite length_app. lia.
Qed.

Lemma integer_non_ascii_raises_UnicodeDecodeError_witness :
  (forallb (scannable "e") (bytes_of "4") = true
   /\ (Byte.to_N xff <? 128)%N = false)
  /\ run ("i"%byte :: bytes_of "4" ++ xff :: bytes_of "2e")
     = Raises (UnicodeDecodeError [xff])
         {| _index := 3; _data := "i"%byte :: bytes_of "4" ++ xff :: bytes_of "2e" |}.
Proof.
  assert (H : forallb (scannable "e") (bytes_of "4") = true) by reflexivity.
  assert (Hc : (Byte.to_N xff <? 128)%N = false) by reflexivity.
  split; [auto|].
  exact (integer_non_ascii_raises_UnicodeDecodeError (bytes_of "4") xff (bytes_of "2e") H Hc).
Defined.

(** ** The byte-string form *)

(** X8.  Behind a decimal length [n] of no more digits than [int] takes and
    a [:], [decode()] returns the [n] bytes that follow, or as many as the
    buffer still has when they are fewer; it never fails for want of bytes,
    and the cursor is moved on by [n] in both cases. *)
Theorem string_form_takes_what_is_there (n : Z) (tail : bytes) :
  0 <= n ->
  short_numeral n = true ->
  run (decimal n ++ ":"%byte :: tail)
  = Returns (VBytes (firstn (Z.to_nat n) tail))
      {| _index := len (decimal n) + 1 + n; _data := decimal n ++ ":"%byte :: tail |}.
Proof.
  intros Hn _. rewrite run_from_start.
  pose proof (py_int_decimal n Hn) as Hi.
  destruct (decimal_head n) as (c & t & Ht & Hc & Hts).
  rewrite Ht in Hi |- *. cbn [app].
  rewrite (decode_str_mid c t _ [] tail _ eq_refl Hc).
  - unfold str_outcome. rewrite Hi. unfold set_index. cbn [_index _data].
    apply f_equal, at_offset. len_lia.
  - apply digits_scannable; [reflexivity|exact Hts].
  - cbn [List.length]. rewrite length_app. cbn [List.length]. lia.
Qed.

Lemma string_form_takes_what_is_there_witness :
  (0 <= 12 /\ short_numeral 12 = true)
  /\ run (bytes_of "12:spam")
     = Returns (VBytes (bytes_of "spam")) {| _index := 15; _data := bytes_of "12:spam" |}.
Proof.
  assert (H : 0 <= 12) by lia.
  assert (Hs : short_numeral 12 = true) by (vm_compute; reflexivity).
  split; [auto|]. exact (string_form_takes_what_is_there 12 (bytes_of "spam") H Hs).
Defined.

(** X9.  A length with no [:] behind it, up to the end of the buffer, makes
    [decode()] raise [AttributeError], with the cursor at the end. *)
Theorem length_unterminated_raises_AttributeError (c : byte) (t : bytes) :
  is_digit_byte c = true ->
  forallb (scannable ":") t = true ->
  run (c :: t) = Raises AttributeError {| _index := len t + 1; _data := c :: t |}.
Proof.
  intros Hc Ht. rewrite run_from_start.
  rewrite (decode_str_unterminated c t _ [] _ eq_refl Hc Ht).
  - apply f_equal, at_offset. len_lia.
  - cbn [List.length]. lia.
Qed.

Lemma length_unterminated_raises_AttributeError_witness :
  (is_digit_byte "4" = true /\ forallb (scannable ":") (bytes_of "spam") = true)
  /\ run (bytes_of "4spam")
     = Raises AttributeError {| _index := 5; _data := bytes_of "4spam" |}.
Proof.
  assert (Hc : is_digit_byte "4" = true) by reflexivity.
  assert (Ht : forallb (scannable ":") (bytes_of "spam") = true) by reflexivity.
  split; [auto|].
  exact (length_unterminated_raises_AttributeError "4" (bytes_of "spam") Hc Ht).
Defined.

(** X17.  Behind a first digit, the ASCII bytes up to the first [:] are
    the text that [decode()] hands to [int] for the length: whatever [int]
    takes is a length (blanks behind the digits, single underscores between
    them, leading zeros), and a text it does not take makes the run raise
    the [ValueError] of [int], with the cursor behind the [:]. *)
Theorem length_is_int_of_text (c : byte) (t tail : bytes) :
  is_digit_byte c = true ->
  forallb (scannable ":") t = true ->
  run (c :: t ++ ":"%byte :: tail)
  = str_outcome (text_of (c :: t)) tail
      {| _index := len t + 2; _data := c :: t ++ ":"%byte :: tail |}.
Proof.
  intros Hc Ht. rewrite run_from_start.
  rewrite (decode_str_mid c t _ [] tail _ eq_refl Hc Ht).
  - apply f_equal, at_offset. len_lia.
  - cbn [List.length]. rewrite length_app. cbn [List.length]. lia.
Qed.

Lemma length_is_int_of_text_witness :
  (is_digit_byte "0" = true /\ forallb (scannable ":") (bytes_of "_4 ") = true)
  /\ run (bytes_of "0_4 :spam")
     = Returns (VBytes (bytes_of "spam")) {| _index := 9; _data := bytes_of "0_4 :spam" |}
  /\ (forallb (scannable ":") (bytes_of "a") = true
      /\ run (bytes_of "4a:spam")
         = Raises (ValueError_int "4a") {| _index := 3; _data := bytes_of "4a:spam" |}).
Proof.
  assert (Hc : is_digit_byte "0" = true) by reflexivity.
  assert (Ht : forallb (scannable ":") (bytes_of "_4 ") = true) by reflexivity.
  assert (Ha : forallb (scannable ":") (bytes_of "a") = true) by reflexivity.
  split; [auto|]. split.
  - exact (length_is_int_of_text "0" (bytes_of "_4 ") (bytes_of "spam") Hc Ht).
  - split; [exact Ha|].
    exact (length_is_int_of_text "4" (bytes_of "a") (bytes_of "spam") eq_refl Ha).
Defined.

(** ** Round trips *)

Lemma run_bencode_plain (v : value) (rest : bytes) :
  plain v = true ->
  run (bencode v ++ rest)
  = Returns v {| _index := len (bencode v); _data := bencode v ++ rest |}.
Proof.
  intros Hp. rewrite run_from_start.
  rewrite (decode_bencode_plain v Hp [] rest _ _ eq_refl) by (cbn [app]; lia).
  apply f_equal, at_offset. len_lia.
Qed.

(** X10.  Integers, byte strings and lists of them, inside the limits of
    the interpreter (numerals of at most 4300 digits, nesting at most 64
    deep), decode back from their bencoding: [decode()] returns the object
    and leaves the cursor behind its last byte, whatever bytes follow. *)
Theorem bencode_round_trip (v : value) (rest : bytes) :
  modest v = true ->
  run (bencode v ++ rest)
  = Returns v {| _index := len (bencode v); _data := bencode v ++ rest |}.
Proof. intros Hm. apply run_bencode_plain, modest_plain, Hm. Qed.

Lemma bencode_round_trip_witness :
  let v := VList [VInt (-3); VBytes (bytes_of "spam"); VList [VInt 0]; VBytes []] in
  modest v = true
  /\ run (bencode v ++ bytes_of "trailing")
     = Returns v {| _index := len (bencode v); _data := bencode v ++ bytes_of "trailing" |}.
Proof.
  intros v.
  assert (H : modest v = true) by (vm_compute; reflexivity).
  split; [exact H|]. exact (bencode_round_trip v (bytes_of "trailing") H).
Defined.

(** X11.  A dictionary whose keys are distinct integers or byte strings and
    whose values are integers, byte strings and lists of them, inside the
    limits of the interpreter, decodes back from its bencoding, in the order
    written (sorted or not); the cursor is left on the dictionary's
    terminating [e], one byte short of its end. *)
Theorem dictionary_round_trip (d : list (key * value)) (rest : bytes) :
  forallb modest_entry d = true ->
  NoDup (keys d) ->
  run (bencode (VDict d) ++ rest)
  = Returns (VDict d)
      {| _index := len (bencode (VDict d)) - 1; _data := bencode (VDict d) ++ rest |}.
Proof.
  intros Hm Hn. pose proof (modest_entries_plain d Hm) as Hp.
  rewrite run_from_start.
  assert (Hd : bencode (VDict d) ++ rest
               = [] ++ "d"%byte :: bencode_entries d ++ "e"%byte :: rest).
  { cbn [bencode app]. fold (bencode_entries d). rewrite <- app_assoc. reflexivity. }
  rewrite (decode_dict_mid d [] rest _ _ Hp Hd) by (cbn [app]; lia).
  rewrite (setitems_NoDup d [] Hn). cbn [app].
  apply f_equal, at_offset. cbn [bencode]. fold (bencode_entries d). len_lia.
Qed.

Lemma dictionary_round_trip_witness :
  let d := [(KBytes (bytes_of "spam"), VList [VInt 1; VInt 2]);
            (KBytes (bytes_of "cow"), VBytes (bytes_of "moo"));
            (KInt 7, VInt (-7))] in
  (forallb modest_entry d = true /\ NoDup (keys d))
  /\ run (bencode (VDict d) ++ bytes_of "i1e")
     = Returns (VDict d)
         {| _index := len (bencode (VDict d)) - 1;
            _data := bencode (VDict d) ++ bytes_of "i1e" |}.
Proof.
  intros d.
  assert (Hp : forallb modest_entry d = true) by (vm_compute; reflexivity).
  assert (Hn : NoDup (keys d)).
  { repeat constructor; simpl; intuition discriminate. }
  split; [auto|]. exact (dictionary_round_trip d (bytes_of "i1e") Hp Hn).
Defined.

(** X12.  A second [decode()] on the same instance goes on where the first
    stopped: over the bencodings of two plain objects inside the limits of
    the interpreter, one behind the other, the first call returns the first
    object and the second call the second, with the cursor behind it. *)
Theorem second_decode_reads_next_value (v1 v2 : value) (rest : bytes) :
  modest v1 = true ->
  modest v2 = true ->
  let data := bencode v1 ++ bencode v2 ++ rest in
  let self1 := {| _index := len (bencode v1); _data := data |} in
  run data = Returns v1 self1
  /\ decode (budget self1) self1
     = Returns v2 {| _index := len (bencode v1) + len (bencode v2); _data := data |}.
Proof.
  intros M1 M2 data self1.
  pose proof (modest_plain v1 M1) as H1. pose proof (modest_plain v2 M2) as H2.
  split.
  - apply run_bencode_plain, H1.
  - apply (decode_Returns_enough (2 * List.length data + 1) (budget self1));
      [apply len_nonneg| |unfold budget, remaining; lia].
    apply (decode_bencode_plain v2 H2 (bencode v1) rest data); [reflexivity|lia].
Qed.

Lemma second_decode_reads_next_value_witness :
  let v1 := VBytes (bytes_of "spam") in
  let v2 := VList [VInt 1] in
  let data := bencode v1 ++ bencode v2 ++ bytes_of "e" in
  let self1 := {| _index := len (bencode v1); _data := data |} in
  (modest v1 = true /\ modest v2 = true)
  /\ run data = Returns v1 self1
  /\ decode (budget self1) self1
     = Returns v2 {| _index := len (bencode v1) + len (bencode v2); _data := data |}.
Proof.
  intros v1 v2 data self1.
  assert (H1 : modest v1 = true) by (vm_compute; reflexivity).
  assert (H2 : modest v2 = true) by (vm_compute; reflexivity).
  split; [auto|]. exact (second_decode_reads_next_value v1 v2 (bytes_of "e") H1 H2).
Defined.

(** ** Lists and dictionaries that stop short, or too soon *)

(** X13.  A list of plain objects inside the limits of the interpreter with
    no [e] behind them, up to the end of the buffer, makes [decode()] raise
    [IndexError] (the loop test indexes the buffer at its end), with the
    cursor at the end. *)
Theorem list_unterminated_raises_IndexError (items : list value) :
  forallb modest items = true ->
  run ("l"%byte :: flat_map bencode items)
  = Raises IndexError
      {| _index := len (flat_map bencode items) + 1;
         _data := "l"%byte :: flat_map bencode items |}.
Proof.
  intros Hm. pose proof (modest_items_plain items Hm) as Hp.
  rewrite run_from_start.
  rewrite (decode_list_unterminated items [] _ _ Hp eq_refl) by (cbn [app]; lia).
  apply f_equal, at_offset. len_lia.
Qed.

Lemma list_unterminated_raises_IndexError_witness :
  let items := [VInt 1; VBytes (bytes_of "ab")] in
  forallb modest items = true
  /\ run ("l"%byte :: flat_map bencode items)
     = Raises IndexError
         {| _index := len (flat_map bencode items) + 1;
            _data := "l"%byte :: flat_map bencode items |}.
Proof.
  intros items.
  assert (H : forallb modest items = true) by (vm_compute; reflexivity).
  split; [exact H|]. exact (list_unterminated_raises_IndexError items H).
Defined.

(** X14.  A dictionary of plain entries inside the limits of the interpreter
    with no [e] behind them, up to the end of the buffer, makes [decode()]
    raise [EOFError] (the loop goes on to decode a key that is not there),
    with the cursor at the end. *)
Theorem dictionary_unterminated_raises_EOFError (d : list (key * value)) :
  forallb modest_entry d = true ->
  run ("d"%byte :: bencode_entries d)
  = Raises EOFError
      {| _index := len (bencode_entries d) + 1; _data := "d"%byte :: bencode_entries d |}.
Proof.
  intros Hm. pose proof (modest_entries_plain d Hm) as Hp.
  rewrite run_from_start.
  rewrite (decode_dict_unterminated d [] _ _ Hp eq_refl) by (cbn [app]; lia).
  apply f_equal, at_offset. len_lia.
Qed.

Lemma dictionary_unterminated_raises_EOFError_witness :
  let d := [(KBytes (bytes_of "cow"), VInt 1)] in
  forallb modest_entry d = true
  /\ run ("d"%byte :: bencode_entries d)
     = Raises EOFError
         {| _index := len (bencode_entries d) + 1;
            _data := "d"%byte :: bencode_entries d |}.
Proof.
  intros d.
  assert (H : forallb modest_entry d = true) by (vm_compute; reflexivity).
  split; [exact H|]. exact (dictionary_unterminated_raises_EOFError d H).
Defined.

(** X15.  In a list, the first dictionary is the last element [decode()]
    returns (the elements before it and the dictionary's entries inside the
    limits of the interpreter): the list's loop takes the terminator that the
    dictionary left unread for its own, so the list ends behind the
    dictionary, and whatever follows it in the buffer, further elements
    included, is not read. *)
Theorem list_ends_at_first_dictionary
    (items : list value) (d : list (key * value)) (rest : bytes) :
  forallb modest items = true ->
  forallb modest_entry d = true ->
  run ("l"%byte :: flat_map bencode items ++ bencode (VDict d) ++ rest)
  = Returns (VList (items ++ [VDict (setitems d [])]))
      {| _index := 1 + len (flat_map bencode items) + len (bencode (VDict d));
         _data := "l"%byte :: flat_map bencode items ++ bencode (VDict d) ++ rest |}.
Proof.
  intros Hmi Hmd.
  pose proof (modest_items_plain items Hmi) as Hp.
  pose proof (modest_entries_plain d Hmd) as Hd.
  rewrite run_from_start.
  assert (E : "l"%byte :: flat_map bencode items ++ bencode (VDict d) ++ rest
              = [] ++ "l"%byte :: flat_map bencode items
                   ++ "d"%byte :: bencode_entries d ++ "e"%byte :: rest).
  { cbn [bencode app]. fold (bencode_entries d). rewrite <- app_assoc. reflexivity. }
  rewrite (decode_list_with_dict items d [] rest _ _ Hp Hd E) by (cbn [app]; lia).
  apply f_equal, at_offset. cbn [bencode]. fold (bencode_entries d). len_lia.
Qed.

Lemma list_ends_at_first_dictionary_witness :
  let items := [VInt 1] in
  let d := [(KBytes (bytes_of "a"), VInt 2)] in
  (forallb modest items = true /\ forallb modest_entry d = true)
  /\ run (bytes_of "li1ed1:ai2eei3ee")
     = Returns (VList [VInt 1; VDict d])
         {| _index := 12; _data := bytes_of "li1ed1:ai2eei3ee" |}.
Proof.
  intros items d.
  assert (H1 : forallb modest items = true) by (vm_compute; reflexivity).
  assert (H2 : forallb modest_entry d = true) by (vm_compute; reflexivity).
  split; [auto|]. exact (list_ends_at_first_dictionary items d (bytes_of "i3ee") H1 H2).
Defined.

(** ** What a returned value looks like *)

(** X16.  Whatever the buffer, in a value that [decode()] returns every
    dictionary, at any depth, has one entry for each key, and every key is
    an integer or a byte string. *)
Theorem returned_dictionaries_are_well_keyed
    (contents : bytes) (v : value) (self' : Bdecode) :
  run contents = Returns v self' -> well_keyed v.
Proof. apply run_well_keyed. Qed.

Lemma returned_dictionaries_are_well_keyed_witness :
  let contents := bytes_of "d1:ad1:bi1e1:bi2eee" in
  let v := VDict [(KBytes (bytes_of "a"), VDict [(KBytes (bytes_of "b"), VInt 2)])] in
  run contents = Returns v {| _index := 17; _data := contents |}
  /\ well_keyed v.
Proof.
  intros contents v.
  assert (H : run contents = Returns v {| _index := 17; _data := contents |})
    by (vm_compute; reflexivity).
  split; [exact H|]. exact (returned_dictionaries_are_well_keyed contents v _ H).
Defined.
